(** * castor: an X11 command launcher (launcher.c, config.h)

    A shallow embedding of the launcher's line buffer, of the scroll
    computation in [draw], of the event loop of [main] and of its start-up
    sequence, followed by the properties of the specification checked
    against it.

    Conventions.
    - A C [int] is a [Z].  The values the program computes stay far inside
      the 32-bit range (indices are below [input_max], extents are X11
      [short]s), so no wrap-around is written for them; signed overflow has
      no defined result in C anyway.  The one unsigned computation of the
      program (the text baseline in [draw]) has its wrap-around written out.
    - [char input[input_max]] is a [list byte]; reading and writing are
      stdpp's list lookup and [list_inserts].  A write past the end of the
      array is undefined in C; [list_inserts] drops that part, and the
      invariant [buffer_inv] shows that no such write happens.
    - What the program does to the outside world (Xlib and Xft calls, stdout,
      stderr, fork) is recorded as a list of [effect]s, oldest first.
    - What the outside world answers (does a colour parse, how wide is a
      text, does fork succeed) is read from a record [World]. *)

From Stdlib Require Import ZArith Lia Bool.
From stdpp Require Import base list strings.

Local Open Scope Z_scope.

(** ** Bytes and C strings *)

Abbreviation byte := Init.Byte.byte.
Abbreviation NUL := Init.Byte.x00.
Abbreviation LF := Init.Byte.x0a.

#[global] Instance byte_eq_dec : EqDecision byte := Byte.byte_eq_dec.

(** The C string that starts at the beginning of an array: the bytes before
    the first NUL (the whole array if it holds none). *)
Fixpoint cstring (a : list byte) : list byte :=
  match a with
  | [] => []
  | b :: a' => if decide (b = NUL) then [] else b :: cstring a'
  end.

(** [memmove(&a[dst], &a[src], n)]: the [n] bytes at [src] are read first,
    then written at [dst]. *)
Definition memmove (a : list byte) (dst src n : Z) : list byte :=
  list_inserts (Z.to_nat dst) (take (Z.to_nat n) (drop (Z.to_nat src) a)) a.

(** [memcpy(&a[dst], buf, n)] from a separate array [buf]. *)
Definition memcpy (a : list byte) (dst : Z) (buf : list byte) (n : Z) : list byte :=
  list_inserts (Z.to_nat dst) (take (Z.to_nat n) buf) a.

(** [(size_t)i] of an [int] on an LP64 target. *)
Definition size_t_of_int (i : Z) : Z := i mod 2 ^ 64.

(** [(size_t)i + 1] *)
Definition size_t_succ (i : Z) : Z := (size_t_of_int i + 1) mod 2 ^ 64.

(** ** config.h *)

Definition bg_color : string := "#1e1e2e".
Definition fg_color : string := "#cdd6f4".
Definition font_name : string := "monospace:size=12".
Definition win_width : Z := 600.
Definition win_height : Z := 60.
Definition input_max : Z := 256.

(** ** Effects and collaborators *)

Inductive effect : Type :=
  | XSetInputFocus
  | XClearWindow
  | XftDrawStringUtf8 (x y : Z) (text : list byte)
  | XftDrawRect (x y w h : Z)
  | XCreateSimpleWindow (x y w h border_width border bg : Z)
  | XMapWindow
  | Stdout (bytes : list byte)          (* printf *)
  | Fflush
  | Warn (msg : string)                 (* warn, warnx: stderr *)
  | Spawn (cmd : list byte)             (* the forked child: setsid, then
                                           execl /bin/sh sh -c cmd *)
  | Cleanup.                            (* XftDrawDestroy ... XCloseDisplay *)

Record XftFont : Type := { ascent : Z; descent : Z; height : Z }.

Record World : Type := {
  XOpenDisplay : bool;                      (* false: returns NULL *)
  OpenBSD : bool;                           (* built with __OpenBSD__ *)
  pledge : bool;                            (* false: returns -1 *)
  BlackPixel : Z;
  XParseColor : string -> option Z;         (* None: returns 0 *)
  XAllocColor : Z -> option Z;              (* None: returns 0; else the pixel *)
  XftFontOpenName : string -> option XftFont;
  XftColorAllocName : string -> bool;
  DisplayWidth : Z;
  DisplayHeight : Z;
  XftDrawCreate : bool;                     (* false: returns NULL *)
  WM_DELETE_WINDOW : Z;                     (* the atom from XInternAtom *)
  xOff : list byte -> Z;                    (* XftTextExtentsUtf8(...).xOff *)
  fork : bool;                              (* false: returns -1 *)
  stack : list byte                         (* what the memory of input[]
                                               holds before main writes it *)
}.

(** ** draw (launcher.c 37-94) *)

Section Draw.
Variable W : World.
Variable font : XftFont.

(** [text_w]: total width of the full string (lines 53-60). *)
Definition text_w (input : list byte) (inlen : Z) : Z :=
  if 0 <? inlen then xOff W (take (Z.to_nat inlen) input) else 0.

(** [ext_cursor.xOff]: width up to the cursor (lines 63-68). *)
Definition ext_cursor_xOff (input : list byte) (cursor : Z) : Z :=
  if 0 <? cursor then xOff W (take (Z.to_nat cursor) input) else 0.

(** [avail_w] (line 70). *)
Definition avail_w : Z := win_width - 20.

(** Lines 73-81: the new [scroll_x].  The subtraction [cursor_x -
    scroll_x] is the mathematical one: it is the value C computes whenever
    that value fits an [int] (C leaves the other case undefined), which
    it does for every offset that is not negative and for every offset a
    session holds. *)
Definition adjust_scroll (cursor_x text_w scroll_x : Z) : Z :=
  let scroll_x :=
    if cursor_x - scroll_x >? avail_w then cursor_x - avail_w
    else if cursor_x - scroll_x <? 0 then cursor_x
    else scroll_x in
  let scroll_x := if scroll_x <? 0 then 0 else scroll_x in
  let scroll_x := if scroll_x >? text_w then text_w else scroll_x in
  scroll_x.

(** [draw]; [xftdraw = false] is the NULL handle.  Returns the new
    [scroll_x] and what was painted.  [XftDrawRect] takes its width and
    height as [unsigned int]: the height recorded here is the one passed
    for a font whose height is not negative. *)
Definition draw (xftdraw : bool) (input : list byte) (cursor inlen scroll_x : Z)
  : Z * list effect :=
  if negb xftdraw then (scroll_x, [])
  else
    let x := 10 in
    let y := ((win_height + ascent font - descent font) mod 2 ^ 32) / 2 in
    let text_w := text_w input inlen in
    let cursor_x := ext_cursor_xOff input cursor in
    let scroll_x := adjust_scroll cursor_x text_w scroll_x in
    let text :=
      if 0 <? inlen
      then [XftDrawStringUtf8 (x - scroll_x) y (take (Z.to_nat inlen) input)]
      else [] in
    let x := 10 + cursor_x - scroll_x in
    (scroll_x,
     [XClearWindow] ++ text ++ [XftDrawRect x (y - ascent font) 2 (height font)]).
End Draw.

(** ** run_command (launcher.c 96-119)

    The model follows the launcher's own process.  There [fork] returns a
    negative value or the pid of the child; the branch [pid == 0] runs in
    the child, which never returns to [main]: it is the effect [Spawn]. *)

Definition run_command (W : World) (input : option (list byte)) : list effect :=
  match input with
  | None => []
  | Some a =>
      if decide (head a = Some NUL) then []
      else if negb (fork W) then [Warn "fork"]
      else [Spawn (cstring a)]
  end.

(** ** The event loop of main (launcher.c 201-305) *)

(** The local variables of [main] that the loop changes. *)
Record state : Type := State {
  input : list byte;
  cursor : Z;
  inlen : Z;
  scroll_x : Z;
  running : Z;
  focused : Z
}.

(** What [XNextEvent] delivers.  A key press carries what the program asks
    Xlib about it: [XLookupKeysym(&ev.xkey, 0)], [ev.xkey.state] and the
    bytes [XLookupString] translates it to. *)
Inductive XEvent : Type :=
  | Expose
  | FocusOut
  | ClientMessage (data0 : Z)
  | KeyPress (key : Z) (modifiers : Z) (chars : list byte)
  | OtherEvent.

(** X11/keysymdef.h and X11/X.h *)
Definition XK_BackSpace : Z := 0xff08.
Definition XK_Return : Z := 0xff0d.
Definition XK_Escape : Z := 0xff1b.
Definition XK_Home : Z := 0xff50.
Definition XK_Left : Z := 0xff51.
Definition XK_Right : Z := 0xff53.
Definition XK_End : Z := 0xff57.
Definition XK_KP_Enter : Z := 0xff8d.
Definition XK_u : Z := 0x0075.
Definition ControlMask : Z := Z.shiftl 1 2.

(** [XLookupString(&ev.xkey, buf, nbytes, NULL, NULL)]: at most [nbytes]
    bytes of the translation land in [buf]; their number is returned. *)
Definition XLookupString (chars : list byte) (nbytes : Z) : list byte * Z :=
  let buf := take (Z.to_nat nbytes) chars in
  (buf, Z.of_nat (length buf)).

Section Loop.
Variable W : World.
Variable font : XftFont.
Variable xftdraw : bool.

(** A call [scroll_x = draw(dpy, xftdraw, font, &xft_fg, input, cursor,
    inlen, scroll_x)] on the given values of the locals. *)
Definition redraw (input : list byte) (cursor inlen scroll_x running focused : Z)
  : state * list effect :=
  let '(scroll_x, out) := draw W font xftdraw input cursor inlen scroll_x in
  (State input cursor inlen scroll_x running focused, out).

(** Lines 230-231. *)
Definition key_Escape (s : state) : state * list effect :=
  (State (input s) (cursor s) (inlen s) (scroll_x s) 0 (focused s), []).

(** Lines 232-242. *)
Definition key_Return (s : state) : state * list effect :=
  if 0 <? inlen s then
    let input := <[Z.to_nat (inlen s) := NUL]> (input s) in
    (State input (cursor s) (inlen s) (scroll_x s) 0 (focused s),
     [Stdout (cstring input ++ [LF]); Fflush] ++ run_command W (Some input))
  else
    (State (input s) (cursor s) (inlen s) (scroll_x s) 0 (focused s), []).

(** Lines 243-253. *)
Definition key_BackSpace (s : state) : state * list effect :=
  if 0 <? cursor s then
    let input :=
      memmove (input s) (cursor s - 1) (cursor s)
        (size_t_succ (inlen s - cursor s)) in
    redraw input (cursor s - 1) (inlen s - 1) (scroll_x s) (running s) (focused s)
  else (s, []).

(** Lines 254-258. *)
Definition key_Left (s : state) : state * list effect :=
  let cursor := if 0 <? cursor s then cursor s - 1 else cursor s in
  redraw (input s) cursor (inlen s) (scroll_x s) (running s) (focused s).

(** Lines 259-263. *)
Definition key_Right (s : state) : state * list effect :=
  let cursor := if cursor s <? inlen s then cursor s + 1 else cursor s in
  redraw (input s) cursor (inlen s) (scroll_x s) (running s) (focused s).

(** Lines 264-270. *)
Definition key_Home (s : state) : state * list effect :=
  if negb (cursor s =? 0) then
    redraw (input s) 0 (inlen s) (scroll_x s) (running s) (focused s)
  else (s, []).

(** Lines 271-277. *)
Definition key_End (s : state) : state * list effect :=
  if negb (cursor s =? inlen s) then
    redraw (input s) (inlen s) (inlen s) (scroll_x s) (running s) (focused s)
  else (s, []).

(** Lines 278-285: Ctrl-U. *)
Definition key_ctrl_u (s : state) : state * list effect :=
  redraw (<[0%nat := NUL]> (input s)) 0 0 0 (running s) (focused s).

(** Lines 289-301: the bytes [buf[0..len)] go in at the cursor. *)
Definition insert_text (buf : list byte) (len : Z) (s : state)
  : state * list effect :=
  if (0 <? len) && (inlen s + len <? input_max - 1) then
    let input :=
      memmove (input s) (cursor s + len) (cursor s)
        (size_t_succ (inlen s - cursor s)) in
    let input := memcpy input (cursor s) buf (size_t_of_int len) in
    redraw input (cursor s + len) (inlen s + len) (scroll_x s)
      (running s) (focused s)
  else (s, []).

(** Lines 227-303: [case KeyPress]. *)
Definition key_press (key modifiers : Z) (chars : list byte) (s : state)
  : state * list effect :=
  if key =? XK_Escape then key_Escape s
  else if (key =? XK_Return) || (key =? XK_KP_Enter) then key_Return s
  else if key =? XK_BackSpace then key_BackSpace s
  else if key =? XK_Left then key_Left s
  else if key =? XK_Right then key_Right s
  else if key =? XK_Home then key_Home s
  else if key =? XK_End then key_End s
  else if negb (Z.land modifiers ControlMask =? 0) && (key =? XK_u)
    then key_ctrl_u s
  else
    let '(buf, len) := XLookupString chars 32 in
    insert_text buf len s.

(** Lines 209-304: one turn of the loop on the event [ev]. *)
Definition step (ev : XEvent) (s : state) : state * list effect :=
  match ev with
  | Expose =>
      let '(focused, out1) :=
        if focused s =? 0 then (1, [XSetInputFocus]) else (focused s, []) in
      let '(s', out2) :=
        redraw (input s) (cursor s) (inlen s) (scroll_x s) (running s) focused in
      (s', out1 ++ out2)
  | FocusOut => (s, [])
  | ClientMessage data0 =>
      if data0 =? WM_DELETE_WINDOW W
      then (State (input s) (cursor s) (inlen s) (scroll_x s) 0 (focused s), [])
      else (s, [])
  | KeyPress key modifiers chars => key_press key modifiers chars s
  | OtherEvent => (s, [])
  end.

(** [while (running) { XNextEvent; switch ... }] on the events still to
    come; with none left the program waits in [XNextEvent]. *)
Fixpoint main_loop (evs : list XEvent) (s : state) : state * list effect :=
  if running s =? 0 then (s, [])
  else
    match evs with
    | [] => (s, [])
    | ev :: evs =>
        let '(s1, out1) := step ev s in
        let '(s2, out2) := main_loop evs s1 in
        (s2, out1 ++ out2)
    end.
End Loop.

(** ** parse_color (launcher.c 19-35) *)

Definition parse_color (W : World) (color : string) : Z * list effect :=
  match XParseColor W color with
  | None => (BlackPixel W, [Warn (String.append "invalid color: " color)])
  | Some xcolor =>
      match XAllocColor W xcolor with
      | None =>
          (BlackPixel W, [Warn (String.append "cannot allocate color: " color)])
      | Some pixel => (pixel, [])
      end
  end.

(** ** main (launcher.c 122-314) *)

(** How a run of [main] on a finite supply of events ends: the process has
    exited with a status, or it waits in [XNextEvent] for a further event. *)
Inductive outcome : Type :=
  | Exit (status : Z)
  | Waiting (s : state).

(** Lines 201-206. *)
Definition initial_state (W : World) : state :=
  State (<[0%nat := NUL]> (resize (Z.to_nat input_max) NUL (stack W))) 0 0 0 1 0.

(** What the start-up of [main] (lines 142-199) hands to the loop. *)
Record session : Type := Session {
  bg : Z;
  border : Z;
  the_font : XftFont
}.

(** Lines 142-199: either a fatal error, or the window is up.  A call
    [errx(1, msg)] or [err(1, msg)] is the message on stderr followed by
    exit status 1. *)
Definition startup (W : World) : (outcome + session) * list effect :=
  if negb (XOpenDisplay W) then (inl (Exit 1), [Warn "cannot open display"])
  else if OpenBSD W && negb (pledge W) then (inl (Exit 1), [Warn "pledge"])
  else
    let '(bg, out1) := parse_color W bg_color in
    let '(border, out2) := parse_color W fg_color in
    match XftFontOpenName W font_name with
    | None =>
        (inl (Exit 1),
         out1 ++ out2 ++ [Warn (String.append "cannot load font: " font_name)])
    | Some font =>
        if negb (XftColorAllocName W fg_color) then
          (inl (Exit 1),
           out1 ++ out2 ++
           [Warn (String.append "cannot allocate xft color: " fg_color)])
        else
          let x := (DisplayWidth W - win_width) ÷ 2 in
          let y := (DisplayHeight W - win_height) ÷ 2 in
          let out3 :=
            [XCreateSimpleWindow x y win_width win_height 2 border bg; XMapWindow] in
          if negb (XftDrawCreate W) then
            (inl (Exit 1), out1 ++ out2 ++ out3 ++ [Warn "cannot create XftDraw"])
          else (inr (Session bg border font), out1 ++ out2 ++ out3)
    end.

Definition main (W : World) (evs : list XEvent) : outcome * list effect :=
  match startup W with
  | (inl o, out) => (o, out)
  | (inr ses, out) =>
      let '(s, out') := main_loop W (the_font ses) true evs (initial_state W) in
      if running s =? 0 then (Exit 0, out ++ out' ++ [Cleanup])
      else (Waiting s, out ++ out')
  end.

(** ** Vocabulary of the properties *)

(** The buffer invariant: the array has its declared size, the cursor lies
    in the text, the text leaves room for its terminator, and the
    terminator is there. *)
Definition buffer_inv (s : state) : Prop :=
  length (input s) = Z.to_nat input_max ∧
  0 ≤ cursor s ∧ cursor s ≤ inlen s ∧ inlen s < input_max ∧
  input s !! Z.to_nat (inlen s) = Some NUL.

#[global] Instance buffer_inv_dec s : Decision (buffer_inv s).
Proof. unfold buffer_inv. apply _. Defined.

(** The text of the buffer: [input[0..inlen)]. *)
Definition content (s : state) : list byte := take (Z.to_nat (inlen s)) (input s).

(** The session states of the specification.  The program keeps the single
    flag [running]: a session is Running while the flag is set; once an
    event has cleared it, the session is Confirmed if that event was the
    Return or keypad Enter key and Cancelled otherwise. *)
Inductive SessionState : Type := Running | Confirmed | Cancelled.

Definition is_enter (ev : XEvent) : bool :=
  match ev with
  | KeyPress key _ _ =>
      (key =? XK_Return) || (key =? XK_KP_Enter)
  | _ => false
  end.

Definition session_state_after (ev : XEvent) (s' : state) : SessionState :=
  if running s' =? 0 then (if is_enter ev then Confirmed else Cancelled)
  else Running.

(** Effects that reach standard output or start a command. *)
Definition prints_or_executes (e : effect) : bool :=
  match e with
  | Stdout _ | Spawn _ => true
  | _ => false
  end.

(** A press of the Left or of the Right arrow key. *)
Definition is_arrow (ev : XEvent) : bool :=
  match ev with
  | KeyPress key _ _ => (key =? XK_Left) || (key =? XK_Right)
  | _ => false
  end.

(** Only the insertion point moves between [s] and [s']. *)
Definition same_text (s s' : state) : Prop :=
  input s' = input s ∧ inlen s' = inlen s.

(** An effect that neither prints nor executes. *)
Definition quiet (e : effect) : Prop := prints_or_executes e = false.

(** The pixel the colour collaborators give for a colour name, if both
    [XParseColor] and [XAllocColor] succeed. *)
Definition color_pixel (W : World) (color : string) : option Z :=
  XParseColor W color ≫= XAllocColor W.

(** The failures on which [main] calls [errx] or [err] before its loop. *)
Definition startup_fatal (W : World) : bool :=
  negb (XOpenDisplay W)
  || (OpenBSD W && negb (pledge W))
  || bool_decide (XftFontOpenName W font_name = None)
  || negb (XftColorAllocName W fg_color)
  || negb (XftDrawCreate W).

(** ** The scroll policy in the words of the specification (section 4.2) *)

Module Spec.
Definition padding : Z := 10.

Definition availableWidth : Z := win_width - 2 * padding.

Definition clamp (lo hi x : Z) : Z := Z.max lo (Z.min hi x).

Definition recompute (scrollOffset cursorExtent totalExtent availableWidth : Z) : Z :=
  let scrollOffset :=
    if decide (cursorExtent - scrollOffset > availableWidth)
    then cursorExtent - availableWidth
    else if decide (cursorExtent - scrollOffset < 0) then cursorExtent
    else scrollOffset in
  clamp 0 totalExtent scrollOffset.
End Spec.

(** ** A concrete world for examples: an 8-pixel monospace font, every
    collaborator succeeds. *)

Definition font8 : XftFont := {| ascent := 12; descent := 3; height := 15 |}.

Definition world8 : World := {|
  XOpenDisplay := true;
  OpenBSD := false;
  pledge := true;
  BlackPixel := 0;
  XParseColor := fun _ => Some 1;
  XAllocColor := fun c => Some (c + 1);
  XftFontOpenName := fun _ => Some font8;
  XftColorAllocName := fun _ => true;
  DisplayWidth := 1920;
  DisplayHeight := 1080;
  XftDrawCreate := true;
  WM_DELETE_WINDOW := 300;
  xOff := fun text => 8 * Z.of_nat (length text);
  fork := true;
  stack := []
|}.

Definition key_a : XEvent := KeyPress 0x61 0 [Init.Byte.x61].
Definition key_ctrl_space : XEvent := KeyPress 0x20 ControlMask [NUL].
Definition key_enter : XEvent := KeyPress XK_Return 0 [Init.Byte.x0d].
Definition key_backspace : XEvent := KeyPress XK_BackSpace 0 [Init.Byte.x08].
Definition key_escape : XEvent := KeyPress XK_Escape 0 [Init.Byte.x1b].

(** [world8] with an X server whose Xft cannot allocate colours. *)
Definition world_no_xft_color : World := {|
  XOpenDisplay := true;
  OpenBSD := false;
  pledge := true;
  BlackPixel := 0;
  XParseColor := fun _ => Some 1;
  XAllocColor := fun c => Some (c + 1);
  XftFontOpenName := fun _ => Some font8;
  XftColorAllocName := fun _ => false;
  DisplayWidth := 1920;
  DisplayHeight := 1080;
  XftDrawCreate := true;
  WM_DELETE_WINDOW := 300;
  xOff := fun text => 8 * Z.of_nat (length text);
  fork := true;
  stack := []
|}.

(** [world8] with an X server that knows no colour name. *)
Definition world_no_colors : World := {|
  XOpenDisplay := true;
  OpenBSD := false;
  pledge := true;
  BlackPixel := 0;
  XParseColor := fun _ => None;
  XAllocColor := fun c => None;
  XftFontOpenName := fun _ => Some font8;
  XftColorAllocName := fun _ => true;
  DisplayWidth := 1920;
  DisplayHeight := 1080;
  XftDrawCreate := true;
  WM_DELETE_WINDOW := 300;
  xOff := fun text => 8 * Z.of_nat (length text);
  fork := true;
  stack := []
|}.

(** The text "hello" with the cursor after "he". *)
Definition hello : state :=
  State ([Init.Byte.x68; Init.Byte.x65; Init.Byte.x6c; Init.Byte.x6c; Init.Byte.x6f]
           ++ replicate 251 NUL) 2 5 0 1 1.

(** A buffer that holds 253 bytes, cursor at the end. *)
Definition nearly_full : state :=
  State (replicate 253 Init.Byte.x61 ++ replicate 3 NUL) 253 253 0 1 1.

(** ** Vocabulary of the further properties *)

(** The events on which a turn of the loop clears [running]. *)
Definition ends_session (W : World) (ev : XEvent) : bool :=
  match ev with
  | KeyPress key _ _ =>
      (key =? XK_Escape) || (key =? XK_Return) || (key =? XK_KP_Enter)
  | ClientMessage data0 => data0 =? WM_DELETE_WINDOW W
  | _ => false
  end.

(** The keys [case KeyPress] tests for before it looks at the modifiers. *)
Definition editing_keys : list Z :=
  [XK_Escape; XK_Return; XK_KP_Enter; XK_BackSpace; XK_Left; XK_Right;
   XK_Home; XK_End].

(** The bytes a key press hands to the insertion path, if it gets there:
    the key is no editing key and is not Ctrl-U. *)
Definition typed (ev : XEvent) : option (list byte) :=
  match ev with
  | KeyPress key modifiers chars =>
      if bool_decide (key ∈ editing_keys) then None
      else if negb (Z.land modifiers ControlMask =? 0) && (key =? XK_u) then None
      else Some (take 32 chars)
  | _ => None
  end.

(** What an event adds to the text when it neither moves the cursor nor
    deletes nor ends the session: the bytes of an inserting key press, and
    nothing for Expose, FocusOut, events of other types and client
    messages other than the close request. *)
Definition entered (W : World) (ev : XEvent) : option (list byte) :=
  match ev with
  | KeyPress _ _ _ => typed ev
  | ClientMessage data0 =>
      if data0 =? WM_DELETE_WINDOW W then None else Some []
  | Expose | FocusOut | OtherEvent => Some []
  end.

Definition is_spawn (e : effect) : bool :=
  match e with Spawn _ => true | _ => false end.

Definition is_stdout (e : effect) : bool :=
  match e with Stdout _ => true | _ => false end.

Definition is_focus (e : effect) : bool :=
  match e with XSetInputFocus => true | _ => false end.

(** A turn that keeps the text below [input_max - 1] bytes and leaves the
    last cell of the array as it is. *)
Definition keeps_room (s s' : state) : Prop :=
  inlen s' < input_max - 1 ∧ input s' !! 255%nat = input s !! 255%nat.

Definition key_left : XEvent := KeyPress XK_Left 0 [].
Definition key_right : XEvent := KeyPress XK_Right 0 [].
Definition key_home : XEvent := KeyPress XK_Home 0 [].
Definition key_end : XEvent := KeyPress XK_End 0 [].

(** * Properties *)

(** Case analysis on the comparisons that guard an [if] of the goal,
    innermost first. *)
Ltac no_if a :=
  lazymatch a with
  | context [if _ then _ else _] => fail
  | _ => idtac
  end.

Ltac split_ifs :=
  repeat match goal with
         | |- context [if ?a >? ?b then _ else _] =>
             no_if a; no_if b; destruct (Z.gtb_spec a b)
         | |- context [if ?a <? ?b then _ else _] =>
             no_if a; no_if b; destruct (Z.ltb_spec a b)
         | |- context [if ?a =? ?b then _ else _] =>
             no_if a; no_if b; destruct (Z.eqb_spec a b)
         end.

(** ** Arrays: block writes as splicing *)

Section Splice.
Context {A : Type}.
Implicit Types a k : list A.
Local Open Scope nat_scope.

(** A block write that fits in the array replaces a segment of it. *)
Lemma list_inserts_fit a k i :
  i + length k ≤ length a →
  list_inserts i k a = take i a ++ k ++ drop (i + length k) a.
Proof.
  intros Hfit.
  rewrite <- (take_drop i a) at 1.
  assert (Hi : length (take i a) = i) by (rewrite length_take; lia).
  rewrite <- Hi at 1.
  rewrite <- (Nat.add_0_r (length (take i a))), list_inserts_app_r.
  f_equal.
  rewrite <- (take_drop (length k) (drop i a)) at 1.
  rewrite list_inserts_0_r, drop_drop; [done|].
  rewrite length_take, length_drop. lia.
Qed.

(** Opening a gap of [length k] cells at [c] in a text of [n] cells (and
    its terminator cell), then filling the gap with [k]. *)
Lemma open_gap_and_fill a k c n :
  c ≤ n → n + length k < length a →
  list_inserts c k
    (list_inserts (c + length k) (take (n - c + 1) (drop c a)) a)
  = take c a ++ k ++ take (n - c + 1) (drop c a) ++ drop (n + length k + 1) a.
Proof.
  intros Hc Hn.
  assert (Htail : length (take (n - c + 1) (drop c a)) = n - c + 1)
    by (rewrite length_take, length_drop; lia).
  rewrite (list_inserts_fit a) by lia.
  rewrite Htail.
  rewrite list_inserts_fit by (rewrite !length_app, length_take; lia).
  rewrite take_app_le by (rewrite length_take; lia).
  rewrite take_take, Nat.min_l by lia.
  rewrite drop_app_length' by (rewrite length_take; lia).
  do 4 f_equal. lia.
Qed.

(** Closing the cell before [c]: the tail and the terminator cell move
    one cell to the left. *)
Lemma close_gap a c n :
  0 < c → c ≤ n → n < length a →
  list_inserts (c - 1) (take (n - c + 1) (drop c a)) a
  = take (c - 1) a ++ take (n - c + 1) (drop c a) ++ drop n a.
Proof.
  intros Hc0 Hc Hn.
  assert (Htail : length (take (n - c + 1) (drop c a)) = n - c + 1)
    by (rewrite length_take, length_drop; lia).
  rewrite list_inserts_fit by lia.
  rewrite Htail. do 3 f_equal. lia.
Qed.
End Splice.

(** ** Sizes *)

Lemma size_t_of_int_small i : 0 ≤ i < 2 ^ 32 → size_t_of_int i = i.
Proof. intros Hi. unfold size_t_of_int. apply Z.mod_small. lia. Qed.

Lemma size_t_succ_small i : 0 ≤ i < 2 ^ 32 → size_t_succ i = i + 1.
Proof.
  intros Hi. unfold size_t_succ. rewrite size_t_of_int_small by done.
  apply Z.mod_small. lia.
Qed.

(** ** The scroll computation *)

Lemma avail_w_value : avail_w = 580.
Proof. reflexivity. Qed.

Lemma draw_scroll W font input cursor inlen scroll_x :
  (draw W font true input cursor inlen scroll_x).1 =
  adjust_scroll (ext_cursor_xOff W input cursor) (text_w W input inlen) scroll_x.
Proof. reflexivity. Qed.

Lemma draw_null W font input cursor inlen scroll_x :
  draw W font false input cursor inlen scroll_x = (scroll_x, []).
Proof. reflexivity. Qed.

(** The code's two separate clamping tests against the specification's
    policy, for every offset and every cursor extent, inside the band or
    not, and every total extent that is not negative. *)
Lemma adjust_scroll_recompute s c t :
  0 ≤ t →
  adjust_scroll c t s = Spec.recompute s c t Spec.availableWidth.
Proof.
  intros Ht. unfold adjust_scroll, Spec.recompute, Spec.clamp.
  change Spec.availableWidth with 580. rewrite avail_w_value.
  destruct (Z.gtb_spec (c - s) 580); [|destruct (Z.ltb_spec (c - s) 0)];
    repeat case_decide; try lia; split_ifs.
  all: lia.
Qed.

(** What the recompute guarantees, whatever the width of the text. *)
Lemma adjust_scroll_bounds s c t :
  0 ≤ s → 0 ≤ c ≤ t →
  0 ≤ c - adjust_scroll c t s ≤ avail_w ∧
  0 ≤ adjust_scroll c t s ≤ t ∧
  (t < avail_w → adjust_scroll c t s = Z.min s c).
Proof.
  intros Hs Hc. unfold adjust_scroll. rewrite avail_w_value.
  destruct (Z.gtb_spec (c - s) 580); [|destruct (Z.ltb_spec (c - s) 0)];
    split_ifs.
  all: lia.
Qed.

(** C3. The scroll offset [draw] returns is the one the three-step policy
    of the specification prescribes: past the right edge the offset becomes
    cursor extent minus available width, past the left edge it becomes the
    cursor extent, and the result is clamped to [0, total extent]; the
    available width is the window width minus the padding on both sides.
    This holds for every total extent that is not negative and for every
    offset and cursor extent on which the subtraction of line 73 is the
    one of C: every offset and cursor extent that are not negative (the
    range of the claim), and every other pair, negative offsets and
    cursor extents beyond the total extent included, whose difference
    fits an [int].  Outside the range of the claim the two tests of lines
    78-81 do change the offset, and they change it to the bounds the
    policy names. *)
Theorem draw_follows_scroll_policy W font input cursor inlen scroll_x :
  0 ≤ text_w W input inlen →
  (0 ≤ scroll_x ∧ 0 ≤ ext_cursor_xOff W input cursor) ∨
  - 2 ^ 31 ≤ ext_cursor_xOff W input cursor - scroll_x < 2 ^ 31 →
  (draw W font true input cursor inlen scroll_x).1 =
  Spec.recompute scroll_x (ext_cursor_xOff W input cursor)
    (text_w W input inlen) Spec.availableWidth.
Proof.
  intros Ht _. rewrite draw_scroll. by apply adjust_scroll_recompute.
Qed.

(** A negative incoming offset with the cursor at the start of an
    80-pixel text: no branch of lines 73-77 fires and the test of line 78
    raises the offset to 0. *)
Lemma draw_follows_scroll_policy_witness :
  0 ≤ text_w world8 (replicate 10 Init.Byte.x61) 10 ∧
  ((0 ≤ -5 ∧ 0 ≤ ext_cursor_xOff world8 (replicate 10 Init.Byte.x61) 0) ∨
   - 2 ^ 31 ≤ ext_cursor_xOff world8 (replicate 10 Init.Byte.x61) 0 - -5
     < 2 ^ 31) ∧
  (draw world8 font8 true (replicate 10 Init.Byte.x61) 0 10 (-5)).1 =
  Spec.recompute (-5) (ext_cursor_xOff world8 (replicate 10 Init.Byte.x61) 0)
    (text_w world8 (replicate 10 Init.Byte.x61) 10) Spec.availableWidth.
Proof.
  assert (H1 : 0 ≤ text_w world8 (replicate 10 Init.Byte.x61) 10)
    by (by vm_compute).
  assert (H2 : (0 ≤ -5 ∧ 0 ≤ ext_cursor_xOff world8 (replicate 10 Init.Byte.x61) 0) ∨
               - 2 ^ 31 ≤ ext_cursor_xOff world8 (replicate 10 Init.Byte.x61) 0 - -5
                 < 2 ^ 31)
    by (right; by vm_compute).
  split; [done|]. split; [done|].
  apply (draw_follows_scroll_policy world8 font8 _ 0 10 (-5) H1 H2).
Defined.

(** The two clamping tests at work, on the values of the witness and on a
    cursor extent beyond the total extent. *)
Example adjust_scroll_clamps :
  adjust_scroll 0 80 (-5) = 0 ∧ Spec.recompute (-5) 0 80 Spec.availableWidth = 0 ∧
  adjust_scroll 700 100 0 = 100 ∧ Spec.recompute 0 700 100 Spec.availableWidth = 100.
Proof. by vm_compute. Qed.

(** C4, as the code has it.  After a recompute the cursor lies in the
    visible band, [0 <= cursorExtent - scrollOffset <= availableWidth], and
    the offset lies in [0, totalExtent], whatever the total extent; when the
    total extent is below the available width the new offset is the smaller
    of the incoming offset and the cursor extent (so 0 when the incoming
    offset is 0), not 0 in general. *)
Theorem draw_keeps_cursor_visible W font input cursor inlen scroll_x :
  0 ≤ scroll_x →
  0 ≤ ext_cursor_xOff W input cursor ≤ text_w W input inlen →
  let scroll_x' := (draw W font true input cursor inlen scroll_x).1 in
  0 ≤ ext_cursor_xOff W input cursor - scroll_x' ≤ avail_w ∧
  0 ≤ scroll_x' ≤ text_w W input inlen ∧
  (text_w W input inlen < avail_w →
   scroll_x' = Z.min scroll_x (ext_cursor_xOff W input cursor)).
Proof.
  intros Hs Hc. cbv zeta. rewrite draw_scroll. by apply adjust_scroll_bounds.
Qed.

Lemma draw_keeps_cursor_visible_witness :
  0 ≤ 60 ∧
  0 ≤ ext_cursor_xOff world8 (replicate 10 Init.Byte.x61) 10
    ≤ text_w world8 (replicate 10 Init.Byte.x61) 10 ∧
  let scroll_x' := (draw world8 font8 true (replicate 10 Init.Byte.x61) 10 10 60).1 in
  0 ≤ ext_cursor_xOff world8 (replicate 10 Init.Byte.x61) 10 - scroll_x' ≤ avail_w ∧
  0 ≤ scroll_x' ≤ text_w world8 (replicate 10 Init.Byte.x61) 10 ∧
  (text_w world8 (replicate 10 Init.Byte.x61) 10 < avail_w →
   scroll_x' = Z.min 60 (ext_cursor_xOff world8 (replicate 10 Init.Byte.x61) 10)).
Proof.
  split; [lia|]. split; [by vm_compute|].
  apply draw_keeps_cursor_visible; [lia | by vm_compute].
Defined.

(** C4, as stated, fails: with a text 80 pixels wide (below the available
    580), the cursor at its end and an incoming offset of 60, the recompute
    leaves the offset at 60. *)
Lemma scroll_not_reset_when_text_fits :
  let text := replicate 10 Init.Byte.x61 in
  0 ≤ 60 ∧
  0 ≤ ext_cursor_xOff world8 text 10 ≤ text_w world8 text 10 ∧
  text_w world8 text 10 < avail_w ∧
  (draw world8 font8 true text 10 10 60).1 = 60 ∧
  (draw world8 font8 true text 10 10 60).1 ≠ 0.
Proof. by vm_compute. Qed.

(** That situation arises in a session: 80 letters make the text 640 pixels
    wide and push the offset to 60; deleting 70 of them leaves 80 pixels of
    text and the offset still at 60. *)
Example scroll_not_reset_in_session :
  let s := (main_loop world8 font8 true
              (replicate 80 key_a ++ replicate 70 key_backspace)
              (initial_state world8)).1 in
  inlen s = 10 ∧ cursor s = 10 ∧ text_w world8 (input s) (inlen s) = 80 ∧
  scroll_x s = 60.
Proof. by vm_compute. Qed.

(** ** The text and the terminator after a splice *)

Section Spliced.
Context {A : Type}.
Implicit Types a k : list A.
Local Open Scope nat_scope.

Lemma take_opened a k c n :
  c ≤ n → n + length k < length a →
  take (n + length k)
    (take c a ++ k ++ take (n - c + 1) (drop c a) ++ drop (n + length k + 1) a)
  = take c (take n a) ++ k ++ drop c (take n a).
Proof.
  intros Hc Hn.
  assert (Hc' : length (take c a) = c) by (rewrite length_take; lia).
  rewrite take_app_ge by lia. f_equal.
  { rewrite take_take. f_equal. lia. }
  rewrite Hc', take_app_ge by lia. f_equal.
  rewrite take_app_le by (rewrite length_take, length_drop; lia).
  rewrite take_take, take_drop_commute.
  replace ((n + length k - c - length k) `min` (n - c + 1)) with (n - c) by lia.
  do 2 f_equal. lia.
Qed.

Lemma lookup_opened a k c n :
  c ≤ n → n + length k < length a →
  (take c a ++ k ++ take (n - c + 1) (drop c a) ++ drop (n + length k + 1) a)
    !! (n + length k) = a !! n.
Proof.
  intros Hc Hn.
  assert (Hc' : length (take c a) = c) by (rewrite length_take; lia).
  rewrite lookup_app_r, Hc' by lia.
  rewrite lookup_app_r by lia.
  rewrite lookup_app_l by (rewrite length_take, length_drop; lia).
  rewrite lookup_take_lt, lookup_drop by lia. f_equal. lia.
Qed.

Lemma length_opened a k c n :
  c ≤ n → n + length k < length a →
  length (take c a ++ k ++ take (n - c + 1) (drop c a) ++ drop (n + length k + 1) a)
  = length a.
Proof.
  intros Hc Hn. rewrite !length_app, !length_take, !length_drop. lia.
Qed.

Lemma take_closed a c n :
  0 < c → c ≤ n → n < length a →
  take (n - 1) (take (c - 1) a ++ take (n - c + 1) (drop c a) ++ drop n a)
  = take (c - 1) (take n a) ++ drop c (take n a).
Proof.
  intros Hc0 Hc Hn.
  assert (Hc' : length (take (c - 1) a) = c - 1) by (rewrite length_take; lia).
  rewrite take_app_ge by lia. f_equal.
  { rewrite take_take. f_equal. lia. }
  rewrite Hc', take_app_le by (rewrite length_take, length_drop; lia).
  rewrite take_take, take_drop_commute.
  replace ((n - 1 - (c - 1)) `min` (n - c + 1)) with (n - c) by lia.
  do 2 f_equal. lia.
Qed.

Lemma lookup_closed a c n :
  0 < c → c ≤ n → n < length a →
  (take (c - 1) a ++ take (n - c + 1) (drop c a) ++ drop n a) !! (n - 1)
  = a !! n.
Proof.
  intros Hc0 Hc Hn.
  assert (Hc' : length (take (c - 1) a) = c - 1) by (rewrite length_take; lia).
  rewrite lookup_app_r, Hc' by lia.
  rewrite lookup_app_l by (rewrite length_take, length_drop; lia).
  rewrite lookup_take_lt, lookup_drop by lia. f_equal. lia.
Qed.

Lemma length_closed a c n :
  0 < c → c ≤ n → n < length a →
  length (take (c - 1) a ++ take (n - c + 1) (drop c a) ++ drop n a) = length a.
Proof.
  intros Hc0 Hc Hn. rewrite !length_app, !length_take, !length_drop. lia.
Qed.
End Spliced.

(** ** The line buffer *)

Section Buffer.
Variable W : World.
Variable font : XftFont.
Variable xftdraw : bool.

Lemma redraw_fst a c n sx r f :
  (redraw W font xftdraw a c n sx r f).1
  = State a c n (draw W font xftdraw a c n sx).1 r f.
Proof. unfold redraw. by destruct (draw _ _ _ _ _ _ _). Qed.

(** The array after a successful insertion of [bytes] (lines 291-295). *)
Lemma insert_array a (c n : Z) bytes :
  0 ≤ c ≤ n → n + Z.of_nat (length bytes) < input_max - 1 →
  length a = Z.to_nat input_max →
  memcpy (memmove a (c + Z.of_nat (length bytes)) c (size_t_succ (n - c)))
    c bytes (size_t_of_int (Z.of_nat (length bytes)))
  = take (Z.to_nat c) a ++ bytes ++
    take (Z.to_nat n - Z.to_nat c + 1) (drop (Z.to_nat c) a) ++
    drop (Z.to_nat n + length bytes + 1) a.
Proof.
  unfold input_max. intros Hc Hn Ha. unfold memcpy, memmove.
  rewrite size_t_succ_small, size_t_of_int_small by lia.
  rewrite Nat2Z.id, firstn_all.
  replace (Z.to_nat (c + Z.of_nat (length bytes)))
    with (Z.to_nat c + length bytes)%nat by lia.
  replace (Z.to_nat (n - c + 1)) with (Z.to_nat n - Z.to_nat c + 1)%nat by lia.
  apply open_gap_and_fill; lia.
Qed.

(** The array after a deletion (lines 245-247). *)
Lemma delete_array a (c n : Z) :
  0 < c ≤ n → n < input_max → length a = Z.to_nat input_max →
  memmove a (c - 1) c (size_t_succ (n - c))
  = take (Z.to_nat c - 1) a ++
    take (Z.to_nat n - Z.to_nat c + 1) (drop (Z.to_nat c) a) ++
    drop (Z.to_nat n) a.
Proof.
  unfold input_max. intros Hc Hn Ha. unfold memmove.
  rewrite size_t_succ_small by lia.
  replace (Z.to_nat (c - 1)) with (Z.to_nat c - 1)%nat by lia.
  replace (Z.to_nat (n - c + 1)) with (Z.to_nat n - Z.to_nat c + 1)%nat by lia.
  apply close_gap; lia.
Qed.

Lemma insert_text_rejects buf len s :
  input_max - 1 ≤ inlen s + len → insert_text W font xftdraw buf len s = (s, []).
Proof.
  intros Hfull. unfold insert_text.
  destruct (Z.ltb_spec (inlen s + len) (input_max - 1)); [lia|].
  by rewrite andb_false_r.
Qed.

Lemma insert_text_accepts bytes s :
  length (input s) = Z.to_nat input_max →
  0 ≤ cursor s ≤ inlen s →
  bytes ≠ [] →
  inlen s + Z.of_nat (length bytes) < input_max - 1 →
  let a' :=
    take (Z.to_nat (cursor s)) (input s) ++ bytes ++
    take (Z.to_nat (inlen s) - Z.to_nat (cursor s) + 1)
      (drop (Z.to_nat (cursor s)) (input s)) ++
    drop (Z.to_nat (inlen s) + length bytes + 1) (input s) in
  insert_text W font xftdraw bytes (Z.of_nat (length bytes)) s
  = redraw W font xftdraw a' (cursor s + Z.of_nat (length bytes))
      (inlen s + Z.of_nat (length bytes)) (scroll_x s) (running s) (focused s).
Proof.
  intros Ha Hc Hne Hfit a'. unfold insert_text.
  destruct (Z.ltb_spec 0 (Z.of_nat (length bytes))) as [_|Hlen];
    [|destruct bytes; [done | simpl in Hlen; lia]].
  destruct (Z.ltb_spec (inlen s + Z.of_nat (length bytes)) (input_max - 1));
    [|lia].
  simpl. by rewrite insert_array.
Qed.

Lemma key_BackSpace_deletes s :
  buffer_inv s → 0 < cursor s →
  let a' :=
    take (Z.to_nat (cursor s) - 1) (input s) ++
    take (Z.to_nat (inlen s) - Z.to_nat (cursor s) + 1)
      (drop (Z.to_nat (cursor s)) (input s)) ++
    drop (Z.to_nat (inlen s)) (input s) in
  key_BackSpace W font xftdraw s
  = redraw W font xftdraw a' (cursor s - 1) (inlen s - 1) (scroll_x s)
      (running s) (focused s).
Proof.
  intros (Ha & Hc0 & Hc & Hn & Hnul) Hpos a'. unfold key_BackSpace.
  destruct (Z.ltb_spec 0 (cursor s)); [|lia].
  by rewrite delete_array.
Qed.

(** C1. Inserting a non-empty byte string at the cursor.  When
    [inlen + len >= input_max - 1] nothing happens: the state (array,
    length, cursor, scroll offset) is returned as it was and nothing is
    drawn.  Otherwise the tail from the cursor on, terminator cell
    included, moves right by [len], the bytes are copied in at the
    cursor, the cursor and the length grow by [len], and a terminator
    that was in place before is in place after. *)
Theorem insert_text_spec s bytes :
  length (input s) = Z.to_nat input_max →
  0 ≤ cursor s ≤ inlen s → inlen s < input_max →
  bytes ≠ [] →
  let len := Z.of_nat (length bytes) in
  let r := insert_text W font xftdraw bytes len s in
  (input_max - 1 ≤ inlen s + len → r = (s, [])) ∧
  (inlen s + len < input_max - 1 →
   input r.1 =
     take (Z.to_nat (cursor s)) (input s) ++ bytes ++
     take (Z.to_nat (inlen s) - Z.to_nat (cursor s) + 1)
       (drop (Z.to_nat (cursor s)) (input s)) ++
     drop (Z.to_nat (inlen s) + length bytes + 1) (input s) ∧
   length (input r.1) = length (input s) ∧
   content r.1 =
     take (Z.to_nat (cursor s)) (content s) ++ bytes ++
     drop (Z.to_nat (cursor s)) (content s) ∧
   cursor r.1 = cursor s + len ∧
   inlen r.1 = inlen s + len ∧
   (input s !! Z.to_nat (inlen s) = Some NUL →
    input r.1 !! Z.to_nat (inlen r.1) = Some NUL)).
Proof.
  intros Ha Hc Hn Hne len r. split.
  { intros Hfull. apply insert_text_rejects. lia. }
  intros Hfit. subst r len.
  rewrite insert_text_accepts, redraw_fst by done.
  unfold content, input_max in *. simpl.
  split; [done|].
  split; [apply length_opened; lia|].
  split.
  { replace (Z.to_nat (inlen s + Z.of_nat (length bytes)))
      with (Z.to_nat (inlen s) + length bytes)%nat by lia.
    apply take_opened; lia. }
  split; [done|]. split; [done|].
  intros Hnul.
  replace (Z.to_nat (inlen s + Z.of_nat (length bytes)))
    with (Z.to_nat (inlen s) + length bytes)%nat by lia.
  rewrite lookup_opened; [done | lia | lia].
Qed.

(** C2, as the code has it.  The largest sum that is accepted is
    [input_max - 2]: an insertion that makes [inlen + len] equal to
    [input_max - 2] succeeds; one that would make it [input_max - 1] or
    more ([input_max] included) is rejected and changes nothing. *)
Theorem insert_text_boundary s bytes :
  length (input s) = Z.to_nat input_max →
  0 ≤ cursor s ≤ inlen s →
  bytes ≠ [] →
  let len := Z.of_nat (length bytes) in
  let r := insert_text W font xftdraw bytes len s in
  (inlen s + len = input_max - 2 →
   inlen r.1 = input_max - 2 ∧
   cursor r.1 = cursor s + len ∧
   content r.1 =
     take (Z.to_nat (cursor s)) (content s) ++ bytes ++
     drop (Z.to_nat (cursor s)) (content s)) ∧
  (input_max - 1 ≤ inlen s + len → r = (s, [])).
Proof.
  intros Ha Hc Hne len r. split.
  - intros Hsum. subst r len.
    rewrite insert_text_accepts, redraw_fst by (done || lia).
    unfold content, input_max in *. simpl.
    split; [lia|]. split; [done|].
    replace (Z.to_nat (inlen s + Z.of_nat (length bytes)))
      with (Z.to_nat (inlen s) + length bytes)%nat by lia.
    apply take_opened; lia.
  - intros Hfull. apply insert_text_rejects. lia.
Qed.

(** C6. Backspace.  With the cursor at 0 nothing happens (array, length,
    cursor and scroll offset unchanged, nothing drawn).  With the cursor
    after position 0 the byte before the cursor is removed, the tail and
    the terminator move left by one cell, and cursor and length drop by
    one. *)
Theorem key_BackSpace_spec s :
  buffer_inv s →
  let r := key_BackSpace W font xftdraw s in
  (cursor s = 0 → r = (s, [])) ∧
  (0 < cursor s →
   input r.1 =
     take (Z.to_nat (cursor s) - 1) (input s) ++
     take (Z.to_nat (inlen s) - Z.to_nat (cursor s) + 1)
       (drop (Z.to_nat (cursor s)) (input s)) ++
     drop (Z.to_nat (inlen s)) (input s) ∧
   content r.1 =
     take (Z.to_nat (cursor s) - 1) (content s) ++
     drop (Z.to_nat (cursor s)) (content s) ∧
   input r.1 !! Z.to_nat (inlen r.1) = Some NUL ∧
   cursor r.1 = cursor s - 1 ∧
   inlen r.1 = inlen s - 1).
Proof.
  intros Hinv r. split.
  { intros Hc. subst r. unfold key_BackSpace. by rewrite Hc. }
  intros Hpos. subst r.
  rewrite key_BackSpace_deletes, redraw_fst by done.
  destruct Hinv as (Ha & Hc0 & Hc & Hn & Hnul).
  unfold content, input_max in *. simpl.
  split; [done|].
  split.
  { replace (Z.to_nat (inlen s - 1)) with (Z.to_nat (inlen s) - 1)%nat by lia.
    apply take_closed; lia. }
  split; [|done].
  replace (Z.to_nat (inlen s - 1)) with (Z.to_nat (inlen s) - 1)%nat by lia.
  rewrite lookup_closed; [done | lia | lia | lia].
Qed.
End Buffer.

(** ** Examples on the line buffer *)

Lemma insert_text_spec_witness :
  (length (input hello) = Z.to_nat input_max ∧
   0 ≤ cursor hello ≤ inlen hello ∧ inlen hello < input_max ∧
   [Init.Byte.x58] ≠ []) ∧
  content (insert_text world8 font8 true [Init.Byte.x58] 1 hello).1 =
    take 2 (content hello) ++ [Init.Byte.x58] ++ drop 2 (content hello) ∧
  cursor (insert_text world8 font8 true [Init.Byte.x58] 1 hello).1 = 3 ∧
  inlen (insert_text world8 font8 true [Init.Byte.x58] 1 hello).1 = 6.
Proof.
  assert (H1 : length (input hello) = Z.to_nat input_max) by reflexivity.
  assert (H2 : 0 ≤ cursor hello ≤ inlen hello) by (simpl; lia).
  assert (H3 : inlen hello < input_max) by reflexivity.
  assert (H4 : [Init.Byte.x58] ≠ []) by discriminate.
  split; [done|].
  destruct (insert_text_spec world8 font8 true hello [Init.Byte.x58] H1 H2 H3 H4)
    as [_ Hok].
  destruct Hok as (_ & _ & Hcontent & Hcursor & Hinlen & _); [reflexivity|].
  done.
Defined.

Lemma insert_text_boundary_witness :
  (length (input nearly_full) = Z.to_nat input_max ∧
   0 ≤ cursor nearly_full ≤ inlen nearly_full ∧
   [Init.Byte.x62] ≠ []) ∧
  inlen (insert_text world8 font8 true [Init.Byte.x62] 1 nearly_full).1
    = input_max - 2 ∧
  insert_text world8 font8 true [Init.Byte.x62; Init.Byte.x62] 2 nearly_full
    = (nearly_full, []).
Proof.
  assert (H1 : length (input nearly_full) = Z.to_nat input_max) by reflexivity.
  assert (H2 : 0 ≤ cursor nearly_full ≤ inlen nearly_full) by (simpl; lia).
  split; [by split|].
  split.
  - apply (insert_text_boundary world8 font8 true nearly_full [Init.Byte.x62]);
      [done | done | discriminate | reflexivity].
  - apply (insert_text_boundary world8 font8 true nearly_full
             [Init.Byte.x62; Init.Byte.x62]);
      [done | done | discriminate | simpl; unfold input_max; lia].
Defined.

(** C2, as stated, fails: after 254 letters typed into a fresh session the
    buffer is well formed and one more byte would make the length 255, that
    is [input_max - 1]; the key press is rejected and changes nothing. *)
Lemma insert_rejected_at_capacity_minus_1 :
  let s := (main_loop world8 font8 true (replicate 254 key_a)
              (initial_state world8)).1 in
  buffer_inv s ∧ inlen s = 254 ∧ inlen s + 1 = input_max - 1 ∧
  step world8 font8 true key_a s = (s, []) ∧
  inlen (insert_text world8 font8 true [Init.Byte.x61] 1 s).1 ≠ input_max - 1.
Proof. by vm_compute. Qed.

Lemma key_BackSpace_spec_witness :
  buffer_inv hello ∧
  content (key_BackSpace world8 font8 true hello).1 =
    take 1 (content hello) ++ drop 2 (content hello) ∧
  cursor (key_BackSpace world8 font8 true hello).1 = 1 ∧
  inlen (key_BackSpace world8 font8 true hello).1 = 4.
Proof.
  assert (H : buffer_inv hello) by (by vm_compute).
  split; [done|].
  destruct (key_BackSpace_spec world8 font8 true hello H) as [_ Hdel].
  destruct Hdel as (_ & Hcontent & _ & Hcursor & Hinlen); [reflexivity|].
  done.
Defined.

(** ** The buffer invariant along the event loop *)

Lemma initial_state_inv W : buffer_inv (initial_state W).
Proof.
  unfold buffer_inv, initial_state. simpl.
  rewrite length_insert, length_resize.
  repeat split; try done.
  apply list_lookup_insert_eq. rewrite length_resize. unfold input_max. lia.
Qed.

Section Invariant.
Variable W : World.
Variable font : XftFont.
Variable xftdraw : bool.

(** [draw] touches neither the array nor the cursor nor the length. *)
Lemma redraw_inv a c n sx r f :
  length a = Z.to_nat input_max → 0 ≤ c ≤ n → n < input_max →
  a !! Z.to_nat n = Some NUL →
  buffer_inv (redraw W font xftdraw a c n sx r f).1.
Proof. intros. rewrite redraw_fst. unfold buffer_inv. simpl. intuition. Qed.

Lemma key_Escape_inv s : buffer_inv s → buffer_inv (key_Escape s).1.
Proof. done. Qed.

Lemma key_Return_inv s : buffer_inv s → buffer_inv (key_Return W s).1.
Proof.
  intros (Ha & Hc0 & Hc & Hn & Hnul). unfold key_Return.
  destruct (0 <? inlen s); [|done].
  unfold buffer_inv. simpl. rewrite length_insert.
  repeat split; try done.
  apply list_lookup_insert_eq. unfold input_max in *. lia.
Qed.

Lemma key_BackSpace_inv s :
  buffer_inv s → buffer_inv (key_BackSpace W font xftdraw s).1.
Proof.
  intros Hinv. destruct (Z.ltb_spec 0 (cursor s)) as [Hpos|Hle].
  - rewrite key_BackSpace_deletes by done.
    destruct Hinv as (Ha & Hc0 & Hc & Hn & Hnul). unfold input_max in *.
    apply redraw_inv; unfold input_max; try lia.
    + rewrite length_closed; lia.
    + replace (Z.to_nat (inlen s - 1)) with (Z.to_nat (inlen s) - 1)%nat by lia.
      rewrite lookup_closed; [done | lia | lia | lia].
  - unfold key_BackSpace.
    by destruct (Z.ltb_spec 0 (cursor s)); [lia|].
Qed.

Lemma key_Left_inv s : buffer_inv s → buffer_inv (key_Left W font xftdraw s).1.
Proof.
  intros (Ha & Hc0 & Hc & Hn & Hnul). unfold key_Left.
  apply redraw_inv; try done. split_ifs; lia.
Qed.

Lemma key_Right_inv s : buffer_inv s → buffer_inv (key_Right W font xftdraw s).1.
Proof.
  intros (Ha & Hc0 & Hc & Hn & Hnul). unfold key_Right.
  apply redraw_inv; try done. split_ifs; lia.
Qed.

Lemma key_Home_inv s : buffer_inv s → buffer_inv (key_Home W font xftdraw s).1.
Proof.
  intros Hinv. unfold key_Home. destruct (negb _); [|done].
  destruct Hinv as (Ha & Hc0 & Hc & Hn & Hnul).
  apply redraw_inv; try done. lia.
Qed.

Lemma key_End_inv s : buffer_inv s → buffer_inv (key_End W font xftdraw s).1.
Proof.
  intros Hinv. unfold key_End. destruct (negb _); [|done].
  destruct Hinv as (Ha & Hc0 & Hc & Hn & Hnul).
  apply redraw_inv; try done. lia.
Qed.

Lemma key_ctrl_u_inv s : buffer_inv s → buffer_inv (key_ctrl_u W font xftdraw s).1.
Proof.
  intros (Ha & Hc0 & Hc & Hn & Hnul). unfold key_ctrl_u.
  apply redraw_inv; try done.
  - by rewrite length_insert.
  - apply list_lookup_insert_eq. unfold input_max in *. lia.
Qed.

Lemma insert_text_inv bytes s :
  buffer_inv s →
  buffer_inv (insert_text W font xftdraw bytes (Z.of_nat (length bytes)) s).1.
Proof.
  intros Hinv.
  destruct (Z.ltb_spec (inlen s + Z.of_nat (length bytes)) (input_max - 1))
    as [Hfit|Hfull]; [|by rewrite insert_text_rejects].
  destruct bytes as [|b bytes]; [done|].
  destruct Hinv as (Ha & Hc0 & Hc & Hn & Hnul).
  rewrite insert_text_accepts by done.
  unfold input_max in *.
  apply redraw_inv; unfold input_max; try lia.
  - rewrite length_opened; lia.
  - replace (Z.to_nat (inlen s + Z.of_nat (length (b :: bytes))))
      with (Z.to_nat (inlen s) + length (b :: bytes))%nat by lia.
    rewrite lookup_opened; [done | lia | lia].
Qed.

Lemma key_press_inv key modifiers chars s :
  buffer_inv s → buffer_inv (key_press W font xftdraw key modifiers chars s).1.
Proof.
  intros Hinv. unfold key_press, XLookupString.
  repeat match goal with
         | |- context [if ?b then _ else _] => destruct b
         end;
    eauto using key_Escape_inv, key_Return_inv, key_BackSpace_inv,
      key_Left_inv, key_Right_inv, key_Home_inv, key_End_inv,
      key_ctrl_u_inv, insert_text_inv.
Qed.

Lemma step_inv ev s : buffer_inv s → buffer_inv (step W font xftdraw ev s).1.
Proof.
  intros Hinv. destruct ev as [| |data0|key modifiers chars|]; simpl; try done.
  - destruct Hinv as (Ha & Hc0 & Hc & Hn & Hnul).
    destruct (focused s =? 0); simpl;
      match goal with
      | |- context [redraw ?W ?f ?x ?a ?c ?n ?sx ?r ?fo] =>
          pose proof (redraw_inv a c n sx r fo Ha (conj Hc0 Hc) Hn Hnul) as Hdraw;
          by destruct (redraw W f x a c n sx r fo)
      end.
  - by destruct (data0 =? WM_DELETE_WINDOW W).
  - by apply key_press_inv.
Qed.

Lemma main_loop_inv evs s :
  buffer_inv s → buffer_inv (main_loop W font xftdraw evs s).1.
Proof.
  revert s. induction evs as [|ev evs IH]; intros s Hinv; simpl.
  - by destruct (running s =? 0).
  - destruct (running s =? 0); [done|].
    pose proof (step_inv ev s Hinv) as Hstep.
    destruct (step _ _ _ ev s) as [s1 out1]. simpl in Hstep.
    specialize (IH s1 Hstep).
    by destruct (main_loop _ _ _ evs s1) as [s2 out2].
Qed.

(** Every state a session passes through is well formed. *)
Corollary reachable_inv evs :
  buffer_inv (main_loop W font xftdraw evs (initial_state W)).1.
Proof. apply main_loop_inv, initial_state_inv. Qed.

(** A key that is none of the editing keys goes to [insert_text] with the
    first 32 bytes of its translation. *)
Lemma key_press_other key modifiers chars s :
  key ∉ [XK_Escape; XK_Return; XK_KP_Enter; XK_BackSpace; XK_Left; XK_Right;
         XK_Home; XK_End; XK_u] →
  key_press W font xftdraw key modifiers chars s =
  insert_text W font xftdraw (take 32 chars)
    (Z.of_nat (length (take 32 chars))) s.
Proof.
  intros Hkey. unfold key_press, XLookupString.
  repeat match goal with
         | |- context [?k =? ?c] =>
             destruct (Z.eqb_spec k c) as [->|_]; [exfalso; apply Hkey|]
         end;
    rewrite ?andb_false_r; simpl; try done;
    repeat (apply elem_of_cons; (by left) || right); done.
Qed.
End Invariant.

Section Arrows.
Variable W : World.
Variable font : XftFont.
Variable xftdraw : bool.

Lemma arrow_step ev s :
  is_arrow ev = true →
  (step W font xftdraw ev s).1 = (key_Left W font xftdraw s).1 ∨
  (step W font xftdraw ev s).1 = (key_Right W font xftdraw s).1.
Proof.
  destruct ev as [| |data0|key modifiers chars|]; try done. simpl.
  intros [Hk|Hk]%orb_true_iff; apply Z.eqb_eq in Hk; subst key.
  - by left.
  - by right.
Qed.

Lemma arrow_step_same_text ev s :
  is_arrow ev = true → same_text s (step W font xftdraw ev s).1.
Proof.
  intros Harrow.
  destruct (arrow_step ev s Harrow) as [-> | ->];
    unfold key_Left, key_Right; by rewrite redraw_fst.
Qed.

Lemma arrows_same_text evs s :
  forallb is_arrow evs = true →
  same_text s (main_loop W font xftdraw evs s).1.
Proof.
  revert s. induction evs as [|ev evs IH]; intros s Harrows; simpl.
  - by destruct (running s =? 0).
  - destruct (running s =? 0); [done|].
    simpl in Harrows. apply andb_true_iff in Harrows as [Hev Hevs].
    pose proof (arrow_step_same_text ev s Hev) as [Hin Hlen].
    destruct (step _ _ _ ev s) as [s1 out1]. simpl in Hin, Hlen.
    specialize (IH s1 Hevs).
    destruct (main_loop _ _ _ evs s1) as [s2 out2].
    destruct IH as [Hin' Hlen']. simpl in *. split; congruence.
Qed.

(** C5. Every turn of the event loop, whatever the event, keeps the
    buffer invariant: the cursor lies in [0, inlen], [inlen] is below
    [input_max], and [input[inlen]] is the terminator.  So does any
    sequence of turns; and a sequence of Left and Right key presses of
    any length leaves the text alone and the cursor inside [0, inlen]. *)
Theorem event_loop_keeps_buffer_inv s evs :
  buffer_inv s →
  (∀ ev, buffer_inv (step W font xftdraw ev s).1) ∧
  buffer_inv (main_loop W font xftdraw evs s).1 ∧
  (forallb is_arrow evs = true →
   same_text s (main_loop W font xftdraw evs s).1 ∧
   0 ≤ cursor (main_loop W font xftdraw evs s).1 ≤ inlen s).
Proof.
  intros Hinv. split; [|split].
  - intros ev. by apply step_inv.
  - by apply main_loop_inv.
  - intros Harrows.
    pose proof (arrows_same_text evs s Harrows) as Hsame.
    split; [done|].
    destruct Hsame as [_ <-].
    pose proof (main_loop_inv W font xftdraw evs s Hinv) as (_ & ? & ? & _).
    lia.
Qed.
End Arrows.

Lemma event_loop_keeps_buffer_inv_witness :
  buffer_inv hello ∧
  buffer_inv
    (main_loop world8 font8 true
       (replicate 9 (KeyPress XK_Right 0 []) ++ [key_a; key_backspace; key_a])
       hello).1 ∧
  0 ≤ cursor (main_loop world8 font8 true (replicate 9 (KeyPress XK_Left 0 []))
                hello).1 ≤ inlen hello.
Proof.
  assert (H : buffer_inv hello) by (by vm_compute).
  split; [done|]. split.
  - apply (event_loop_keeps_buffer_inv world8 font8 true hello _ H).
  - by apply (event_loop_keeps_buffer_inv world8 font8 true hello
                (replicate 9 (KeyPress XK_Left 0 [])) H).
Defined.

(** ** C strings in the buffer *)

Lemma cstring_no_nul (a : list byte) : NUL ∉ a → cstring a = a.
Proof.
  induction a as [|b a IH]; [done|]. intros Hnotin. simpl.
  apply not_elem_of_cons in Hnotin as [Hb Ha].
  case_decide; [congruence|]. by rewrite IH.
Qed.

(** The string stops at the terminator: it lies in the text before it. *)
Lemma cstring_take (a : list byte) (n : nat) :
  a !! n = Some NUL → cstring a = cstring (take n a).
Proof.
  revert a. induction n as [|n IH]; intros [|b a] Hnul; try done.
  - simpl in Hnul. by injection Hnul as ->.
  - simpl in *. case_decide; [done|]. by rewrite (IH a).
Qed.

Lemma head_cstring (a : list byte) :
  a ≠ [] → (head a = Some NUL ↔ cstring a = []).
Proof.
  destruct a as [|b a]; [done|]. intros _. simpl.
  case_decide as Hb; [by rewrite Hb|].
  split; [intros [=] | intros [=]]. done.
Qed.

(** ** Ending a session *)

Section Session.
Variable W : World.
Variable font : XftFont.
Variable xftdraw : bool.

Lemma draw_quiet a c n sx : Forall quiet (draw W font xftdraw a c n sx).2.
Proof.
  unfold draw. destruct xftdraw; simpl; [|done].
  destruct (0 <? n); repeat constructor.
Qed.

Lemma redraw_quiet a c n sx r f :
  Forall quiet (redraw W font xftdraw a c n sx r f).2 ∧
  running (redraw W font xftdraw a c n sx r f).1 = r.
Proof.
  pose proof (draw_quiet a c n sx) as Hq. unfold redraw.
  by destruct (draw _ _ _ _ _ _ _).
Qed.

Lemma insert_text_quiet buf len s :
  Forall quiet (insert_text W font xftdraw buf len s).2 ∧
  running (insert_text W font xftdraw buf len s).1 = running s.
Proof.
  unfold insert_text. destruct (_ && _); [apply redraw_quiet | done].
Qed.

(** A turn of the loop that leaves the session running has printed
    nothing and executed nothing. *)
Lemma step_quiet ev s :
  running s ≠ 0 → running (step W font xftdraw ev s).1 ≠ 0 →
  Forall quiet (step W font xftdraw ev s).2.
Proof.
  intros Hrun.
  destruct ev as [| |data0|key modifiers chars|]; simpl; try done.
  - intros _.
    destruct (focused s =? 0); simpl;
      match goal with
      | |- context [redraw ?W ?f ?x ?a ?c ?n ?sx ?r ?fo] =>
          pose proof (redraw_quiet a c n sx r fo) as [Hq _];
          destruct (redraw W f x a c n sx r fo)
      end; simpl in *; by repeat constructor.
  - by destruct (data0 =? WM_DELETE_WINDOW W).
  - unfold key_press, XLookupString.
    repeat match goal with
           | |- context [if ?b then _ else _] =>
               lazymatch b with
               | context [if _ then _ else _] => fail
               | _ => destruct b
               end
           end;
      unfold key_Escape, key_Return, key_BackSpace, key_Left, key_Right,
        key_Home, key_End, key_ctrl_u; simpl; try done;
      repeat match goal with
             | |- context [if ?b then _ else _] => destruct b
             end; simpl; try done; intros _;
      solve [apply redraw_quiet | apply insert_text_quiet | done].
Qed.

Lemma main_loop_stopped evs s :
  running s = 0 → main_loop W font xftdraw evs s = (s, []).
Proof. intros Hs. destruct evs; simpl; by rewrite Hs. Qed.

Lemma main_loop_app evs1 evs2 s :
  main_loop W font xftdraw (evs1 ++ evs2) s =
  ((main_loop W font xftdraw evs2 (main_loop W font xftdraw evs1 s).1).1,
   (main_loop W font xftdraw evs1 s).2 ++
   (main_loop W font xftdraw evs2 (main_loop W font xftdraw evs1 s).1).2).
Proof.
  revert s. induction evs1 as [|ev evs1 IH]; intros s.
  - simpl (main_loop _ _ _ [] s). destruct (Z.eqb_spec (running s) 0) as [Hs|Hs].
    + simpl. by rewrite main_loop_stopped.
    + simpl. by destruct (main_loop _ _ _ evs2 s).
  - simpl. destruct (Z.eqb_spec (running s) 0) as [Hs|Hs].
    + simpl. by rewrite main_loop_stopped.
    + destruct (step _ _ _ ev s) as [s1 out1]. rewrite IH.
      destruct (main_loop _ _ _ evs1 s1) as [s2 out2]. simpl.
      by rewrite app_assoc.
Qed.

(** A session that is still running has printed nothing and executed
    nothing so far. *)
Lemma main_loop_quiet evs s :
  running (main_loop W font xftdraw evs s).1 ≠ 0 →
  Forall quiet (main_loop W font xftdraw evs s).2.
Proof.
  revert s. induction evs as [|ev evs IH]; intros s; simpl.
  - by destruct (running s =? 0).
  - destruct (Z.eqb_spec (running s) 0) as [Hs|Hs]; [done|].
    pose proof (step_quiet ev s Hs) as Hstep.
    destruct (step _ _ _ ev s) as [s1 out1]. simpl in Hstep.
    specialize (IH s1).
    destruct (Z.eq_dec (running s1) 0) as [Hs1|Hs1].
    + rewrite main_loop_stopped by done. simpl. congruence.
    + destruct (main_loop _ _ _ evs s1) as [s2 out2]. simpl in *.
      intros Hs2. apply Forall_app. auto.
Qed.
End Session.

Section Endings.
Variable W : World.
Variable font : XftFont.
Variable xftdraw : bool.

Lemma step_enter ev s :
  is_enter ev = true → step W font xftdraw ev s = key_Return W s.
Proof.
  destruct ev as [| |data0|key modifiers chars|]; try done. simpl.
  by intros [Hk|Hk]%orb_true_iff; apply Z.eqb_eq in Hk; subst key.
Qed.

(** What [run_command] does with the buffer, in terms of its text. *)
Lemma run_command_buffer s :
  buffer_inv s →
  run_command W (Some (input s)) =
  if decide (cstring (content s) = []) then []
  else if fork W then [Spawn (cstring (content s))]
  else [Warn "fork"].
Proof.
  intros (Ha & Hc0 & Hc & Hn & Hnul). unfold run_command, content.
  rewrite <- (cstring_take _ _ Hnul).
  assert (Hne : input s ≠ []) by (by destruct (input s)).
  pose proof (head_cstring (input s) Hne) as Hhead.
  repeat case_decide; try done; try tauto.
  by destruct (fork W).
Qed.

(** C7, as the code has it.  On Return or keypad Enter the session
    becomes Confirmed and the buffer is left as it is.  With an empty
    buffer nothing is printed and nothing is executed.  With a non-empty
    buffer the text of the buffer as a C string (its bytes up to the
    first NUL byte) is written to standard output as one line, the
    output is flushed, and then [run_command] is called with the same
    text: it starts nothing when that text is empty, and otherwise
    spawns the shell on it, or warns when fork fails.  When the buffer
    holds no NUL byte that text is exactly the buffer contents. *)
Theorem enter_confirms ev s :
  is_enter ev = true → buffer_inv s →
  let r := step W font xftdraw ev s in
  let text := cstring (content s) in
  session_state_after ev r.1 = Confirmed ∧
  r.1 = State (input s) (cursor s) (inlen s) (scroll_x s) 0 (focused s) ∧
  (inlen s = 0 → r.2 = []) ∧
  (0 < inlen s →
   r.2 = [Stdout (text ++ [LF]); Fflush] ++ run_command W (Some (input s)) ∧
   run_command W (Some (input s)) =
     (if decide (text = []) then []
      else if fork W then [Spawn text] else [Warn "fork"]) ∧
   (NUL ∉ content s → text = content s ∧ text ≠ [])).
Proof.
  intros Henter Hinv r text. subst r text.
  rewrite step_enter by done.
  pose proof (run_command_buffer s Hinv) as Hrun.
  destruct Hinv as (Ha & Hc0 & Hc & Hn & Hnul).
  unfold session_state_after, key_Return. rewrite Henter.
  destruct (Z.ltb_spec 0 (inlen s)) as [Hpos|Hzero]; simpl.
  - rewrite list_insert_id by done.
    split; [done|]. split; [done|]. split; [lia|]. intros _.
    split; [|split; [done|]].
    { unfold content. by rewrite <- (cstring_take _ _ Hnul). }
    intros Hnonul. rewrite cstring_no_nul by done. split; [done|].
    unfold content. unfold input_max in *.
    destruct (input s); [done|].
    by replace (Z.to_nat (inlen s)) with (S (Z.to_nat (inlen s) - 1)) by lia.
  - split; [done|]. split; [done|]. split; [done|]. lia.
Qed.

Lemma step_escape modifiers chars s :
  step W font xftdraw (KeyPress XK_Escape modifiers chars) s =
  (State (input s) (cursor s) (inlen s) (scroll_x s) 0 (focused s), []).
Proof. reflexivity. Qed.

(** C8. Escape, pressed while the session runs, after any sequence of
    events from any state: the turn changes nothing but the flag
    [running], which it clears; it has no effect on the outside; the
    session is Cancelled; and in the whole session up to and including
    that turn nothing was printed and nothing was executed. *)
Theorem escape_cancels evs s modifiers chars :
  running (main_loop W font xftdraw evs s).1 ≠ 0 →
  let ev := KeyPress XK_Escape modifiers chars in
  let before := main_loop W font xftdraw evs s in
  let after := step W font xftdraw ev before.1 in
  after =
    (State (input before.1) (cursor before.1) (inlen before.1)
       (scroll_x before.1) 0 (focused before.1), []) ∧
  session_state_after ev after.1 = Cancelled ∧
  main_loop W font xftdraw (evs ++ [ev]) s = (after.1, before.2) ∧
  Forall quiet (main_loop W font xftdraw (evs ++ [ev]) s).2.
Proof.
  intros Hrun ev before after. subst ev before after.
  rewrite step_escape. split; [done|]. split; [done|].
  assert (Hloop :
    main_loop W font xftdraw (evs ++ [KeyPress XK_Escape modifiers chars]) s =
    (State (input (main_loop W font xftdraw evs s).1)
       (cursor (main_loop W font xftdraw evs s).1)
       (inlen (main_loop W font xftdraw evs s).1)
       (scroll_x (main_loop W font xftdraw evs s).1) 0
       (focused (main_loop W font xftdraw evs s).1),
     (main_loop W font xftdraw evs s).2)).
  { rewrite main_loop_app. simpl.
    destruct (Z.eqb_spec (running (main_loop W font xftdraw evs s).1) 0);
      [done|].
    simpl. by rewrite app_nil_r. }
  split; [done|]. rewrite Hloop. simpl. by apply main_loop_quiet.
Qed.

Lemma main_loop_FocusOut evs s :
  main_loop W font xftdraw (FocusOut :: evs) s = main_loop W font xftdraw evs s.
Proof.
  simpl. destruct (Z.eqb_spec (running s) 0) as [Hs|Hs].
  - by rewrite main_loop_stopped.
  - by destruct (main_loop W font xftdraw evs s).
Qed.

(** C10. A FocusOut event is ignored: the turn returns the state as it
    was (array, length, cursor, scroll offset and the flag [running])
    and does nothing to the outside, so a running session stays
    Running; and taking a FocusOut event out of any event sequence
    changes neither the final state nor the effects of the session. *)
Theorem focus_out_ignored s evs1 evs2 :
  running s ≠ 0 →
  step W font xftdraw FocusOut s = (s, []) ∧
  session_state_after FocusOut (step W font xftdraw FocusOut s).1 = Running ∧
  main_loop W font xftdraw (evs1 ++ FocusOut :: evs2) s =
  main_loop W font xftdraw (evs1 ++ evs2) s.
Proof.
  intros Hrun. split; [done|]. split.
  { unfold session_state_after. simpl. by destruct (Z.eqb_spec (running s) 0). }
  by rewrite !main_loop_app, main_loop_FocusOut.
Qed.
End Endings.

Lemma enter_confirms_witness :
  let s := (main_loop world8 font8 true (replicate 2 key_a) (initial_state world8)).1 in
  (is_enter key_enter = true ∧ buffer_inv s) ∧
  session_state_after key_enter (step world8 font8 true key_enter s).1 = Confirmed ∧
  (step world8 font8 true key_enter s).2 =
    [Stdout (cstring (content s) ++ [LF]); Fflush]
    ++ run_command world8 (Some (input s)).
Proof.
  intros s.
  assert (H1 : is_enter key_enter = true) by reflexivity.
  assert (H2 : buffer_inv s) by (by vm_compute).
  split; [done|].
  destruct (enter_confirms world8 font8 true key_enter s H1 H2)
    as (Hstate & _ & _ & Hout).
  split; [done|]. by apply Hout.
Defined.

(** C7, as stated, fails.  Control-Space is translated to one NUL byte,
    which is inserted like any other byte; the buffer then holds one byte,
    and Return prints an empty line, not the buffer contents, and starts
    no command. *)
Lemma enter_with_nul_in_buffer :
  let s := (main_loop world8 font8 true [key_ctrl_space] (initial_state world8)).1 in
  buffer_inv s ∧ inlen s = 1 ∧ content s = [NUL] ∧
  (step world8 font8 true key_enter s).2 = [Stdout [LF]; Fflush] ∧
  (step world8 font8 true key_enter s).2 ≠
    [Stdout (content s ++ [LF]); Fflush; Spawn (content s)].
Proof. by vm_compute. Qed.

Lemma escape_cancels_witness :
  let evs := [Expose; key_a; key_a; key_backspace] in
  running (main_loop world8 font8 true evs (initial_state world8)).1 ≠ 0 ∧
  session_state_after key_escape
    (step world8 font8 true key_escape
       (main_loop world8 font8 true evs (initial_state world8)).1).1 = Cancelled ∧
  Forall quiet
    (main_loop world8 font8 true (evs ++ [key_escape]) (initial_state world8)).2.
Proof.
  intros evs.
  assert (H : running (main_loop world8 font8 true evs (initial_state world8)).1 ≠ 0)
    by (by vm_compute).
  split; [done|].
  destruct (escape_cancels world8 font8 true evs (initial_state world8) 0
              [Init.Byte.x1b] H) as (_ & Hstate & _ & Hquiet).
  by split.
Defined.

Lemma focus_out_ignored_witness :
  running hello ≠ 0 ∧
  step world8 font8 true FocusOut hello = (hello, []) ∧
  session_state_after FocusOut (step world8 font8 true FocusOut hello).1 = Running.
Proof.
  assert (H : running hello ≠ 0) by (by vm_compute).
  split; [done|].
  destruct (focus_out_ignored world8 font8 true hello [] [] H) as (Hstep & Hstate & _).
  by split.
Defined.

(** ** Start-up *)

Lemma parse_color_pixel W color :
  match color_pixel W color with
  | Some pixel => parse_color W color = (pixel, [])
  | None =>
      (parse_color W color).1 = BlackPixel W ∧
      ∃ msg, (parse_color W color).2 = [Warn msg]
  end.
Proof.
  unfold color_pixel, parse_color.
  destruct (XParseColor W color) as [xcolor|]; simpl; [|eauto].
  destruct (XAllocColor W xcolor); eauto.
Qed.

(** C9, as the code has it.  A colour that [XParseColor] or [XAllocColor]
    refuses becomes the black pixel, with one warning, and start-up goes
    on.  Start-up ends the process with status 1 exactly when the display
    cannot be opened, pledge fails (OpenBSD builds), the font cannot be
    loaded, Xft cannot allocate the foreground colour, or the drawing
    surface cannot be created; otherwise the window is created with the
    two pixels and [main] enters its loop. *)
Theorem startup_fatal_failures W evs :
  (∀ color,
     match color_pixel W color with
     | Some pixel => parse_color W color = (pixel, [])
     | None =>
         (parse_color W color).1 = BlackPixel W ∧
         ∃ msg, (parse_color W color).2 = [Warn msg]
     end) ∧
  if startup_fatal W then
    (startup W).1 = inl (Exit 1) ∧ (main W evs).1 = Exit 1
  else
    ∃ font,
      XftFontOpenName W font_name = Some font ∧
      startup W =
        (inr (Session (parse_color W bg_color).1 (parse_color W fg_color).1 font),
         (parse_color W bg_color).2 ++ (parse_color W fg_color).2 ++
         [XCreateSimpleWindow ((DisplayWidth W - win_width) ÷ 2)
            ((DisplayHeight W - win_height) ÷ 2) win_width win_height 2
            (parse_color W fg_color).1 (parse_color W bg_color).1;
          XMapWindow]) ∧
      main W [] = (Waiting (initial_state W), (startup W).2).
Proof.
  split; [intros color; apply parse_color_pixel|].
  unfold startup_fatal, main, startup.
  destruct (XOpenDisplay W); simpl; [|done].
  destruct (OpenBSD W), (pledge W); simpl; try done;
    destruct (parse_color W bg_color) as [bg out1],
      (parse_color W fg_color) as [border out2];
    destruct (XftFontOpenName W font_name) as [font|]; simpl; try done;
    destruct (XftColorAllocName W fg_color); simpl; try done;
    destruct (XftDrawCreate W); simpl; try done;
    exists font; by rewrite app_nil_r.
Qed.

(** C9, as stated, fails: the display opens, both colours parse and are
    allocated, the font loads and the drawing surface could be created,
    but Xft cannot allocate the foreground colour, and the process exits
    with status 1 before its window exists. *)
Lemma xft_color_failure_is_fatal :
  XOpenDisplay world_no_xft_color = true ∧
  XftFontOpenName world_no_xft_color font_name = Some font8 ∧
  XftDrawCreate world_no_xft_color = true ∧
  XftColorAllocName world_no_xft_color fg_color = false ∧
  main world_no_xft_color [key_a; key_enter] =
    (Exit 1, [Warn "cannot allocate xft color: #cdd6f4"]).
Proof. by vm_compute. Qed.

(** Both colours refused: two warnings, a black window, and the session
    starts. *)
Example startup_without_colors :
  startup_fatal world_no_colors = false ∧
  main world_no_colors [] =
    (Waiting (initial_state world_no_colors),
     [Warn "invalid color: #1e1e2e"; Warn "invalid color: #cdd6f4";
      XCreateSimpleWindow 660 510 600 60 2 0 0; XMapWindow]).
Proof. by vm_compute. Qed.

(** The scenario of the specification: "ls -la", then Return. *)
Example session_ls_la :
  main world8
    [Expose;
     KeyPress 0x6c 0 [Init.Byte.x6c]; KeyPress 0x73 0 [Init.Byte.x73];
     KeyPress 0x20 0 [Init.Byte.x20]; KeyPress 0x2d 0 [Init.Byte.x2d];
     KeyPress 0x6c 0 [Init.Byte.x6c]; KeyPress 0x61 0 [Init.Byte.x61];
     key_enter]
  = (Exit 0,
     filter (λ e, bool_decide (quiet e))
       (main world8
          [Expose;
           KeyPress 0x6c 0 [Init.Byte.x6c]; KeyPress 0x73 0 [Init.Byte.x73];
           KeyPress 0x20 0 [Init.Byte.x20]; KeyPress 0x2d 0 [Init.Byte.x2d];
           KeyPress 0x6c 0 [Init.Byte.x6c]; KeyPress 0x61 0 [Init.Byte.x61]]).2
     ++ [Stdout [Init.Byte.x6c; Init.Byte.x73; Init.Byte.x20; Init.Byte.x2d;
                 Init.Byte.x6c; Init.Byte.x61; LF];
         Fflush;
         Spawn [Init.Byte.x6c; Init.Byte.x73; Init.Byte.x20; Init.Byte.x2d;
                Init.Byte.x6c; Init.Byte.x61];
         Cleanup]).
Proof. by vm_compute. Qed.

(** * Further properties of the event loop *)

Section Turns.
Variable W : World.
Variable font : XftFont.
Variable xftdraw : bool.

Lemma redraw_running a c n sx r f :
  running (redraw W font xftdraw a c n sx r f).1 = r.
Proof. by rewrite redraw_fst. Qed.

Lemma key_press_running key modifiers chars s :
  running (key_press W font xftdraw key modifiers chars s).1 =
  if (key =? XK_Escape) || (key =? XK_Return) || (key =? XK_KP_Enter)
  then 0 else running s.
Proof.
  unfold key_press, XLookupString.
  destruct (key =? XK_Escape); [reflexivity|].
  destruct (key =? XK_Return), (key =? XK_KP_Enter); simpl;
    try (unfold key_Return; by destruct (0 <? inlen s)).
  repeat match goal with
         | |- context [if ?b then _ else _] =>
             lazymatch b with
             | context [if _ then _ else _] => fail
             | _ => destruct b
             end
         end;
    unfold key_BackSpace, key_Left, key_Right, key_Home, key_End, key_ctrl_u,
      insert_text;
    repeat match goal with
           | |- context [if ?b then _ else _] => destruct b
           end;
    simpl; by rewrite ?redraw_running.
Qed.

(** After a turn of the loop [running] is 0 for the events that end the
    session and is what it was for every other event. *)
Lemma step_running ev s :
  running (step W font xftdraw ev s).1 =
  if ends_session W ev then 0 else running s.
Proof.
  destruct ev as [| |data0|key modifiers chars|]; simpl; try done.
  - destruct (focused s =? 0); simpl;
      match goal with
      | |- context [redraw ?W ?f ?x ?a ?c ?n ?sx ?r ?fo] =>
          pose proof (redraw_running a c n sx r fo);
          by destruct (redraw W f x a c n sx r fo)
      end.
  - by destruct (data0 =? WM_DELETE_WINDOW W).
  - apply key_press_running.
Qed.

Lemma main_loop_cons ev evs s :
  running s ≠ 0 →
  (main_loop W font xftdraw (ev :: evs) s).1 =
  (main_loop W font xftdraw evs (step W font xftdraw ev s).1).1.
Proof.
  intros Hrun. simpl. destruct (Z.eqb_spec (running s) 0); [done|].
  destruct (step _ _ _ ev s) as [s1 out1]. simpl.
  by destruct (main_loop _ _ _ evs s1).
Qed.
End Turns.

(** ** Editing, seen on the text *)

Section TextAlgebra.
Context {A : Type}.
Implicit Types t u : list A.
Local Open Scope nat_scope.

Lemma take_inserted t u c :
  c ≤ length t → take (c + length u) (take c t ++ u ++ drop c t) = take c t ++ u.
Proof.
  intros Hc. rewrite app_assoc. apply take_app_length'.
  rewrite length_app, length_take. lia.
Qed.

Lemma drop_inserted t u c :
  c ≤ length t → drop (c + length u) (take c t ++ u ++ drop c t) = drop c t.
Proof.
  intros Hc. rewrite app_assoc. apply drop_app_length'.
  rewrite length_app, length_take. lia.
Qed.
End TextAlgebra.

Section Text.
Variable W : World.
Variable font : XftFont.
Variable xftdraw : bool.

Lemma content_length s : buffer_inv s → length (content s) = Z.to_nat (inlen s).
Proof.
  intros (Ha & Hc0 & Hc & Hn & Hnul). unfold content, input_max in *.
  rewrite length_take. lia.
Qed.

Lemma insert_text_content bytes s :
  buffer_inv s →
  inlen s + Z.of_nat (length bytes) < input_max - 1 →
  content (insert_text W font xftdraw bytes (Z.of_nat (length bytes)) s).1 =
    take (Z.to_nat (cursor s)) (content s) ++ bytes ++
    drop (Z.to_nat (cursor s)) (content s) ∧
  cursor (insert_text W font xftdraw bytes (Z.of_nat (length bytes)) s).1 =
    cursor s + Z.of_nat (length bytes) ∧
  inlen (insert_text W font xftdraw bytes (Z.of_nat (length bytes)) s).1 =
    inlen s + Z.of_nat (length bytes).
Proof.
  intros Hinv Hfit. destruct (decide (bytes = [])) as [->|Hne].
  { unfold insert_text. simpl. rewrite take_drop. repeat split; lia. }
  destruct Hinv as (Ha & Hc0 & Hc & Hn & Hnul).
  rewrite insert_text_accepts, redraw_fst by done.
  unfold content, input_max in *. simpl.
  split; [|done].
  replace (Z.to_nat (inlen s + Z.of_nat (length bytes)))
    with (Z.to_nat (inlen s) + length bytes)%nat by lia.
  apply take_opened; lia.
Qed.

Lemma key_BackSpace_content s :
  buffer_inv s → 0 < cursor s →
  content (key_BackSpace W font xftdraw s).1 =
    take (Z.to_nat (cursor s) - 1) (content s) ++
    drop (Z.to_nat (cursor s)) (content s) ∧
  cursor (key_BackSpace W font xftdraw s).1 = cursor s - 1 ∧
  inlen (key_BackSpace W font xftdraw s).1 = inlen s - 1.
Proof.
  intros Hinv Hpos.
  rewrite key_BackSpace_deletes, redraw_fst by done.
  destruct Hinv as (Ha & Hc0 & Hc & Hn & Hnul).
  unfold content, input_max in *. simpl.
  split; [|done].
  replace (Z.to_nat (inlen s - 1)) with (Z.to_nat (inlen s) - 1)%nat by lia.
  apply take_closed; lia.
Qed.

Lemma not_editing_key key :
  key ∉ editing_keys →
  (key =? XK_Escape) = false ∧ (key =? XK_Return) = false ∧
  (key =? XK_KP_Enter) = false ∧ (key =? XK_BackSpace) = false ∧
  (key =? XK_Left) = false ∧ (key =? XK_Right) = false ∧
  (key =? XK_Home) = false ∧ (key =? XK_End) = false.
Proof.
  intros Hkey. repeat split; apply Z.eqb_neq; intros ->; apply Hkey;
    unfold editing_keys; repeat (apply elem_of_cons; (by left) || right).
Qed.

Lemma step_typed ev text s :
  typed ev = Some text →
  step W font xftdraw ev s =
  insert_text W font xftdraw text (Z.of_nat (length text)) s.
Proof.
  destruct ev as [| |data0|key modifiers chars|]; try done. simpl.
  case_bool_decide as Hkey; [done|].
  destruct (negb (Z.land modifiers ControlMask =? 0) && (key =? XK_u)) eqn:Hu;
    [done|].
  intros [= <-]. unfold key_press, XLookupString.
  destruct (not_editing_key key Hkey)
    as (-> & -> & -> & -> & -> & -> & -> & ->).
  simpl. by rewrite Hu.
Qed.

Lemma typed_goes_on ev text : typed ev = Some text → ends_session W ev = false.
Proof.
  destruct ev as [| |data0|key modifiers chars|]; try done. simpl.
  case_bool_decide as Hkey; [done|]. intros _.
  by destruct (not_editing_key key Hkey) as (-> & -> & -> & _).
Qed.

(** Typed bytes go in at the cursor, in the order typed. *)
Lemma typing_run evs texts s :
  buffer_inv s → running s ≠ 0 →
  Forall2 (λ ev text, typed ev = Some text) evs texts →
  inlen s + Z.of_nat (length (concat texts)) < input_max - 1 →
  content (main_loop W font xftdraw evs s).1 =
    take (Z.to_nat (cursor s)) (content s) ++ concat texts ++
    drop (Z.to_nat (cursor s)) (content s) ∧
  cursor (main_loop W font xftdraw evs s).1 =
    cursor s + Z.of_nat (length (concat texts)) ∧
  inlen (main_loop W font xftdraw evs s).1 =
    inlen s + Z.of_nat (length (concat texts)) ∧
  running (main_loop W font xftdraw evs s).1 = running s.
Proof.
  intros Hinv Hrun Htyped. revert s Hinv Hrun.
  induction Htyped as [|ev text evs texts Hev Hevs IH]; intros s Hinv Hrun Hfit.
  - simpl. destruct (running s =? 0); simpl; rewrite take_drop;
      repeat split; lia.
  - rewrite main_loop_cons by done.
    pose proof (step_running W font xftdraw ev s) as Hrun1.
    rewrite (typed_goes_on ev text Hev) in Hrun1.
    pose proof (step_inv W font xftdraw ev s Hinv) as Hinv1.
    rewrite (step_typed ev text s Hev) in *.
    simpl in Hfit. rewrite length_app in Hfit.
    destruct (insert_text_content text s Hinv) as (Hct & Hcur & Hlen); [lia|].
    destruct (IH _ Hinv1) as (Hct' & Hcur' & Hlen' & Hrun'); [lia | lia |].
    pose proof (content_length s Hinv) as Hsize.
    destruct Hinv as (_ & Hc0 & Hc & _).
    rewrite Hct', Hcur', Hlen', Hrun', Hct, Hcur, Hlen, Hrun1.
    simpl. rewrite length_app.
    replace (Z.to_nat (cursor s + Z.of_nat (length text)))
      with (Z.to_nat (cursor s) + length text)%nat by lia.
    rewrite take_inserted, drop_inserted by lia.
    rewrite <- !app_assoc. repeat split; lia.
Qed.
End Text.

Section Deleting.
Variable W : World.
Variable font : XftFont.
Variable xftdraw : bool.

Lemma key_BackSpace_running s :
  running (key_BackSpace W font xftdraw s).1 = running s.
Proof.
  unfold key_BackSpace. destruct (0 <? cursor s); [|done].
  apply redraw_running.
Qed.

(** [k] presses of BackSpace delete the [k] bytes before the cursor, or all
    of them if there are fewer. *)
Lemma backspaces_run k modifiers chars s :
  buffer_inv s → running s ≠ 0 →
  content (main_loop W font xftdraw
             (replicate k (KeyPress XK_BackSpace modifiers chars)) s).1 =
    take (Z.to_nat (cursor s) - k) (content s) ++
    drop (Z.to_nat (cursor s)) (content s) ∧
  cursor (main_loop W font xftdraw
            (replicate k (KeyPress XK_BackSpace modifiers chars)) s).1 =
    Z.max 0 (cursor s - Z.of_nat k) ∧
  inlen (main_loop W font xftdraw
           (replicate k (KeyPress XK_BackSpace modifiers chars)) s).1 =
    inlen s - Z.min (Z.of_nat k) (cursor s) ∧
  running (main_loop W font xftdraw
             (replicate k (KeyPress XK_BackSpace modifiers chars)) s).1 =
    running s.
Proof.
  revert s. induction k as [|k IH]; intros s Hinv Hrun.
  { simpl. destruct (running s =? 0); simpl;
      rewrite Nat.sub_0_r, take_drop; destruct Hinv as (_ & ? & _);
      repeat split; lia. }
  change (replicate (S k) ?x) with (x :: replicate k x).
  rewrite main_loop_cons by done.
  change (step W font xftdraw (KeyPress XK_BackSpace modifiers chars) s)
    with (key_BackSpace W font xftdraw s).
  pose proof (key_BackSpace_inv W font xftdraw s Hinv) as Hinv1.
  pose proof (key_BackSpace_running s) as Hrun1.
  destruct (IH _ Hinv1) as (Hct' & Hcur' & Hlen' & Hrun'); [lia|].
  rewrite Hct', Hcur', Hlen', Hrun', Hrun1. clear Hct' Hcur' Hlen' Hrun' IH.
  pose proof (content_length s Hinv) as Hsize.
  destruct (Z.ltb_spec 0 (cursor s)) as [Hpos|Hzero].
  - destruct (key_BackSpace_content W font xftdraw s Hinv Hpos)
      as (Hct & Hcur & Hlen).
    destruct Hinv as (_ & Hc0 & Hc & _).
    rewrite Hct, Hcur, Hlen.
    replace (Z.to_nat (cursor s - 1)) with (Z.to_nat (cursor s) - 1)%nat by lia.
    rewrite take_app_le by (rewrite length_take; lia).
    rewrite take_take.
    rewrite drop_app_length' by (rewrite length_take; lia).
    repeat split; try lia. do 2 f_equal. lia.
  - destruct Hinv as (_ & Hc0 & Hc & _).
    assert (Hnop : key_BackSpace W font xftdraw s = (s, [])).
    { unfold key_BackSpace. by destruct (Z.ltb_spec 0 (cursor s)); [lia|]. }
    rewrite Hnop. simpl.
    replace (Z.to_nat (cursor s)) with 0%nat by lia.
    repeat split; lia.
Qed.
End Deleting.

(** ** More on the scroll offset *)

(** The offset moves to the nearest value that shows the cursor. *)
Lemma adjust_scroll_nearest s c t :
  0 ≤ s → 0 ≤ c ≤ t →
  adjust_scroll c t s = Z.max (c - avail_w) (Z.min c s).
Proof.
  intros Hs Hc. unfold adjust_scroll. rewrite avail_w_value.
  destruct (Z.gtb_spec (c - s) 580); [|destruct (Z.ltb_spec (c - s) 0)];
    split_ifs.
  all: lia.
Qed.

Lemma adjust_scroll_idempotent s c t :
  adjust_scroll c t (adjust_scroll c t s) = adjust_scroll c t s.
Proof.
  unfold adjust_scroll. rewrite avail_w_value.
  destruct (Z.gtb_spec (c - s) 580); [|destruct (Z.ltb_spec (c - s) 0)];
    split_ifs.
  all: lia.
Qed.

(** X9. [draw] moves the scroll offset to the nearest value that shows the
    cursor: the incoming offset clipped to the band [cursor extent -
    available width, cursor extent].  An offset that already shows the
    cursor is returned unchanged. *)
Theorem draw_scrolls_minimally W font input cursor inlen scroll_x :
  0 ≤ scroll_x →
  0 ≤ ext_cursor_xOff W input cursor ≤ text_w W input inlen →
  (draw W font true input cursor inlen scroll_x).1 =
    Z.max (ext_cursor_xOff W input cursor - avail_w)
      (Z.min (ext_cursor_xOff W input cursor) scroll_x) ∧
  (0 ≤ ext_cursor_xOff W input cursor - scroll_x ≤ avail_w →
   (draw W font true input cursor inlen scroll_x).1 = scroll_x).
Proof.
  intros Hs Hc. rewrite draw_scroll, adjust_scroll_nearest by done.
  split; [done|]. lia.
Qed.

Lemma draw_scrolls_minimally_witness :
  0 ≤ 60 ∧
  0 ≤ ext_cursor_xOff world8 (replicate 80 Init.Byte.x61) 40
    ≤ text_w world8 (replicate 80 Init.Byte.x61) 80 ∧
  (draw world8 font8 true (replicate 80 Init.Byte.x61) 40 80 60).1 = 60.
Proof.
  assert (H1 : 0 ≤ 60) by lia.
  assert (H2 : 0 ≤ ext_cursor_xOff world8 (replicate 80 Init.Byte.x61) 40
               ≤ text_w world8 (replicate 80 Init.Byte.x61) 80)
    by (by vm_compute).
  split; [done|]. split; [done|].
  apply (draw_scrolls_minimally world8 font8 _ 40 80 60 H1 H2).
  by vm_compute.
Defined.

(** X10. For an incoming offset that is not negative and a cursor extent
    between 0 and the total extent, drawing again with the offset [draw]
    returned gives the same offset and paints the same picture; the
    returned offset is again not negative, so this goes on for any number
    of calls.  The same holds for the NULL drawing handle, which returns
    the offset it was given and paints nothing. *)
Theorem draw_again_changes_nothing W font xftdraw input cursor inlen scroll_x :
  0 ≤ scroll_x →
  0 ≤ ext_cursor_xOff W input cursor ≤ text_w W input inlen →
  0 ≤ height font →
  0 ≤ (draw W font xftdraw input cursor inlen scroll_x).1 ∧
  draw W font xftdraw input cursor inlen
    (draw W font xftdraw input cursor inlen scroll_x).1
  = draw W font xftdraw input cursor inlen scroll_x.
Proof.
  intros Hs Hc _.
  pose proof (adjust_scroll_bounds scroll_x _ _ Hs Hc) as (_ & Hrange & _).
  unfold draw. destruct xftdraw; simpl; [|done].
  split; [lia|]. by rewrite adjust_scroll_idempotent.
Qed.

Lemma draw_again_changes_nothing_witness :
  0 ≤ 0 ∧
  0 ≤ ext_cursor_xOff world8 (replicate 80 Init.Byte.x61) 80
    ≤ text_w world8 (replicate 80 Init.Byte.x61) 80 ∧
  0 ≤ height font8 ∧
  draw world8 font8 true (replicate 80 Init.Byte.x61) 80 80
    (draw world8 font8 true (replicate 80 Init.Byte.x61) 80 80 0).1
  = draw world8 font8 true (replicate 80 Init.Byte.x61) 80 80 0.
Proof.
  assert (H1 : 0 ≤ 0) by lia.
  assert (H2 : 0 ≤ ext_cursor_xOff world8 (replicate 80 Init.Byte.x61) 80
               ≤ text_w world8 (replicate 80 Init.Byte.x61) 80)
    by (by vm_compute).
  assert (H3 : 0 ≤ height font8) by (by vm_compute).
  split; [done|]. split; [done|]. split; [done|].
  apply (draw_again_changes_nothing world8 font8 true _ 80 80 0 H1 H2 H3).
Defined.

(** X11. For an incoming offset that is not negative, a cursor extent
    between 0 and the total extent and a font whose height is not
    negative, the cursor bar is the last thing [draw] paints, it is 2
    pixels wide and as tall as the font, and its left edge lies between
    the left padding and the right padding of the window. *)
Theorem cursor_bar_inside_window W font input cursor inlen scroll_x :
  0 ≤ scroll_x →
  0 ≤ ext_cursor_xOff W input cursor ≤ text_w W input inlen →
  0 ≤ height font →
  ∃ x y,
    last (draw W font true input cursor inlen scroll_x).2 =
      Some (XftDrawRect x y 2 (height font)) ∧
    x = 10 + ext_cursor_xOff W input cursor
        - (draw W font true input cursor inlen scroll_x).1 ∧
    10 ≤ x ≤ win_width - 10.
Proof.
  intros Hs Hc _.
  pose proof (adjust_scroll_bounds scroll_x _ _ Hs Hc) as (Hband & _).
  rewrite avail_w_value in Hband.
  unfold draw. simpl. eexists _, _. split; [|split; [reflexivity|]].
  - destruct (0 <? inlen); reflexivity.
  - unfold win_width. lia.
Qed.

Lemma cursor_bar_inside_window_witness :
  0 ≤ 0 ∧
  0 ≤ ext_cursor_xOff world8 (replicate 80 Init.Byte.x61) 80
    ≤ text_w world8 (replicate 80 Init.Byte.x61) 80 ∧
  0 ≤ height font8 ∧
  ∃ x y,
    last (draw world8 font8 true (replicate 80 Init.Byte.x61) 80 80 0).2 =
      Some (XftDrawRect x y 2 (height font8)) ∧
    x = 10 + ext_cursor_xOff world8 (replicate 80 Init.Byte.x61) 80
        - (draw world8 font8 true (replicate 80 Init.Byte.x61) 80 80 0).1 ∧
    10 ≤ x ≤ win_width - 10.
Proof.
  assert (H1 : 0 ≤ 0) by lia.
  assert (H2 : 0 ≤ ext_cursor_xOff world8 (replicate 80 Init.Byte.x61) 80
               ≤ text_w world8 (replicate 80 Init.Byte.x61) 80)
    by (by vm_compute).
  assert (H3 : 0 ≤ height font8) by (by vm_compute).
  split; [done|]. split; [done|]. split; [done|].
  apply (cursor_bar_inside_window world8 font8 _ 80 80 0 H1 H2 H3).
Defined.

(** ** Moving and clearing *)

Section Moving.
Variable W : World.
Variable font : XftFont.
Variable xftdraw : bool.

Lemma lefts_run n modifiers chars s :
  buffer_inv s → running s ≠ 0 →
  cursor (main_loop W font xftdraw
            (replicate n (KeyPress XK_Left modifiers chars)) s).1 =
    Z.max 0 (cursor s - Z.of_nat n).
Proof.
  revert s. induction n as [|n IH]; intros s Hinv Hrun.
  { simpl. destruct Hinv as (_ & ? & _). destruct (running s =? 0); simpl; lia. }
  change (replicate (S n) ?x) with (x :: replicate n x).
  rewrite main_loop_cons by done.
  change (step W font xftdraw (KeyPress XK_Left modifiers chars) s)
    with (key_Left W font xftdraw s).
  rewrite IH.
  - destruct Hinv as (_ & ? & _). unfold key_Left. rewrite redraw_fst. simpl.
    split_ifs; lia.
  - by apply key_Left_inv.
  - unfold key_Left. by rewrite redraw_running.
Qed.

Lemma rights_run n modifiers chars s :
  buffer_inv s → running s ≠ 0 →
  cursor (main_loop W font xftdraw
            (replicate n (KeyPress XK_Right modifiers chars)) s).1 =
    Z.min (inlen s) (cursor s + Z.of_nat n).
Proof.
  revert s. induction n as [|n IH]; intros s Hinv Hrun.
  { simpl. destruct Hinv as (_ & ? & ? & _). destruct (running s =? 0); simpl; lia. }
  change (replicate (S n) ?x) with (x :: replicate n x).
  rewrite main_loop_cons by done.
  change (step W font xftdraw (KeyPress XK_Right modifiers chars) s)
    with (key_Right W font xftdraw s).
  rewrite IH.
  - destruct Hinv as (_ & ? & ? & _). unfold key_Right. rewrite redraw_fst. simpl.
    split_ifs; lia.
  - by apply key_Right_inv.
  - unfold key_Right. by rewrite redraw_running.
Qed.

(** X4. Arrow keys.  In a running session with a well-formed buffer, [n]
    presses of Left put the cursor at [max 0 (cursor - n)] and [n] presses
    of Right put it at [min inlen (cursor + n)]: the cursor stops at the
    ends of the text. *)
Theorem arrows_move_and_stop n modifiers chars s :
  buffer_inv s → running s ≠ 0 →
  cursor (main_loop W font xftdraw
            (replicate n (KeyPress XK_Left modifiers chars)) s).1 =
    Z.max 0 (cursor s - Z.of_nat n) ∧
  cursor (main_loop W font xftdraw
            (replicate n (KeyPress XK_Right modifiers chars)) s).1 =
    Z.min (inlen s) (cursor s + Z.of_nat n).
Proof. intros Hinv Hrun. split; [by apply lefts_run | by apply rights_run]. Qed.

(** X5. Home and End.  Home puts the cursor at 0 and End puts it at
    [inlen]; neither touches the text; and a second press of the same key
    changes nothing and draws nothing. *)
Theorem home_end_idempotent modifiers chars s :
  let home := step W font xftdraw (KeyPress XK_Home modifiers chars) in
  let end_ := step W font xftdraw (KeyPress XK_End modifiers chars) in
  (cursor (home s).1 = 0 ∧ same_text s (home s).1 ∧
   home (home s).1 = ((home s).1, [])) ∧
  (cursor (end_ s).1 = inlen s ∧ same_text s (end_ s).1 ∧
   end_ (end_ s).1 = ((end_ s).1, [])).
Proof.
  intros home end_. subst home end_.
  change (step W font xftdraw (KeyPress XK_Home modifiers chars))
    with (key_Home W font xftdraw).
  change (step W font xftdraw (KeyPress XK_End modifiers chars))
    with (key_End W font xftdraw).
  split.
  - assert (Hs1 : cursor (key_Home W font xftdraw s).1 = 0 ∧
                  same_text s (key_Home W font xftdraw s).1).
    { unfold key_Home. destruct (Z.eqb_spec (cursor s) 0); simpl; [done|].
      by rewrite redraw_fst. }
    destruct Hs1 as [Hcur Hsame]. repeat split; try apply Hsame; [done|].
    unfold key_Home at 1. by rewrite Hcur.
  - assert (Hs1 : cursor (key_End W font xftdraw s).1 = inlen s ∧
                  same_text s (key_End W font xftdraw s).1).
    { unfold key_End. destruct (Z.eqb_spec (cursor s) (inlen s)); simpl; [done|].
      by rewrite redraw_fst. }
    destruct Hs1 as [Hcur [Hin Hlen]]. repeat split; try done.
    unfold key_End at 1. by rewrite Hcur, Hlen, Z.eqb_refl.
Qed.

End Moving.

Lemma arrows_move_and_stop_witness :
  buffer_inv hello ∧ running hello ≠ 0 ∧
  cursor (main_loop world8 font8 true (replicate 7 key_left) hello).1 = 0 ∧
  cursor (main_loop world8 font8 true (replicate 7 key_right) hello).1 = 5.
Proof.
  assert (H1 : buffer_inv hello) by (by vm_compute).
  assert (H2 : running hello ≠ 0) by (by vm_compute).
  split; [done|]. split; [done|].
  apply (arrows_move_and_stop world8 font8 true 7 0 [] hello H1 H2).
Defined.


(** ** What a session prints and starts *)

Lemma quiet_filter (p : effect → bool) (out : list effect) :
  (∀ e, p e = true → prints_or_executes e = true) →
  Forall quiet out → List.filter p out = [].
Proof.
  intros Hp Hq. induction Hq as [|e out He Hout IH]; [done|]. simpl.
  destruct (p e) eqn:Hpe; [|done].
  apply Hp in Hpe. unfold quiet in He. congruence.
Qed.

Lemma spawn_prints_or_executes e : is_spawn e = true → prints_or_executes e = true.
Proof. by destruct e. Qed.

Lemma stdout_prints_or_executes e : is_stdout e = true → prints_or_executes e = true.
Proof. by destruct e. Qed.

Lemma run_command_outputs W a :
  (length (List.filter is_spawn (run_command W a)) ≤ 1)%nat ∧
  List.filter is_stdout (run_command W a) = [].
Proof.
  unfold run_command. destruct a as [a|]; [|simpl; split; [lia|done]].
  case_decide; [simpl; split; [lia|done]|].
  destruct (fork W); simpl; split; done || lia.
Qed.

Lemma parse_color_quiet W color : Forall quiet (parse_color W color).2.
Proof.
  unfold parse_color. destruct (XParseColor W color) as [c|]; simpl;
    [destruct (XAllocColor W c)|]; simpl; by repeat constructor.
Qed.

Lemma startup_quiet W : Forall quiet (startup W).2.
Proof.
  unfold startup.
  pose proof (parse_color_quiet W bg_color) as Hbg.
  pose proof (parse_color_quiet W fg_color) as Hfg.
  destruct (XOpenDisplay W); simpl; [|by repeat constructor].
  destruct (OpenBSD W && negb (pledge W)); simpl; [by repeat constructor|].
  destruct (parse_color W bg_color) as [bg out1],
    (parse_color W fg_color) as [border out2]. simpl in *.
  destruct (XftFontOpenName W font_name) as [font|]; simpl;
    [|by rewrite !Forall_app; repeat split; try done; repeat constructor].
  destruct (XftColorAllocName W fg_color); simpl;
    [|by rewrite !Forall_app; repeat split; try done; repeat constructor].
  destruct (XftDrawCreate W); simpl;
    rewrite !Forall_app; repeat split; try done; by repeat constructor.
Qed.

Lemma startup_fatal_exit W :
  startup_fatal W = true → (startup W).1 = inl (Exit 1).
Proof.
  unfold startup_fatal, startup.
  destruct (XOpenDisplay W); simpl; [|done].
  destruct (OpenBSD W), (pledge W); simpl; try done;
    destruct (parse_color W bg_color) as [bg out1],
      (parse_color W fg_color) as [border out2];
    destruct (XftFontOpenName W font_name) as [font|]; simpl; try done;
    destruct (XftColorAllocName W fg_color); simpl; try done;
    by destruct (XftDrawCreate W).
Qed.

Section Outputs.
Variable W : World.
Variable font : XftFont.
Variable xftdraw : bool.

Lemma main_loop_running evs s :
  running (main_loop W font xftdraw evs s).1 =
  if existsb (ends_session W) evs then 0 else running s.
Proof.
  revert s. induction evs as [|ev evs IH]; intros s.
  { simpl. by destruct (running s =? 0). }
  destruct (Z.eqb_spec (running s) 0) as [Hs|Hs].
  { rewrite main_loop_stopped by done. simpl. rewrite Hs.
    by destruct (_ || _). }
  rewrite main_loop_cons, IH, step_running by done. simpl.
  by destruct (ends_session W ev), (existsb (ends_session W) evs).
Qed.

Lemma key_Return_outputs s :
  (length (List.filter is_spawn (key_Return W s).2) ≤ 1)%nat ∧
  (length (List.filter is_stdout (key_Return W s).2) ≤ 1)%nat.
Proof.
  unfold key_Return. destruct (0 <? inlen s); [|simpl; lia].
  destruct (run_command_outputs W (Some (<[Z.to_nat (inlen s):=NUL]> (input s))))
    as [Hspawn Hstdout].
  set (rc := run_command W _) in *. clearbody rc.
  simpl. rewrite Hstdout. simpl. lia.
Qed.

Lemma step_outputs ev s :
  running s ≠ 0 →
  (length (List.filter is_spawn (step W font xftdraw ev s).2) ≤ 1)%nat ∧
  (length (List.filter is_stdout (step W font xftdraw ev s).2) ≤ 1)%nat.
Proof.
  intros Hrun. destruct (ends_session W ev) eqn:Hends.
  - destruct ev as [| |data0|key modifiers chars|]; try done; simpl in *.
    + rewrite Hends. simpl. lia.
    + unfold key_press. destruct (key =? XK_Escape); [simpl; lia|].
      simpl in Hends. rewrite Hends. apply key_Return_outputs.
  - pose proof (step_running W font xftdraw ev s) as Hrun'.
    rewrite Hends in Hrun'.
    assert (Hq : Forall quiet (step W font xftdraw ev s).2)
      by (apply step_quiet; congruence).
    rewrite !quiet_filter;
      auto using spawn_prints_or_executes, stdout_prints_or_executes.
Qed.

Lemma main_loop_outputs evs s :
  (length (List.filter is_spawn (main_loop W font xftdraw evs s).2) ≤ 1)%nat ∧
  (length (List.filter is_stdout (main_loop W font xftdraw evs s).2) ≤ 1)%nat.
Proof.
  revert s. induction evs as [|ev evs IH]; intros s; simpl.
  { destruct (running s =? 0); simpl; lia. }
  destruct (Z.eqb_spec (running s) 0) as [Hs|Hs]; [simpl; lia|].
  pose proof (step_outputs ev s Hs) as Hstep.
  pose proof (step_quiet W font xftdraw ev s Hs) as Hquiet.
  destruct (step _ _ _ ev s) as [s1 out1]. simpl in Hstep, Hquiet.
  destruct (Z.eq_dec (running s1) 0) as [Hs1|Hs1].
  - rewrite main_loop_stopped by done. simpl. by rewrite app_nil_r.
  - specialize (IH s1). specialize (Hquiet Hs1).
    destruct (main_loop _ _ _ evs s1) as [s2 out2]. simpl in *.
    rewrite !List.filter_app, !length_app.
    rewrite !(quiet_filter _ out1);
      auto using spawn_prints_or_executes, stdout_prints_or_executes.
Qed.
End Outputs.

(** ** run_command on its own *)

Lemma cstring_nul_free (a : list byte) : NUL ∉ cstring a.
Proof.
  induction a as [|b a IH]; simpl; [apply not_elem_of_nil|].
  case_decide; [apply not_elem_of_nil|].
  apply not_elem_of_cons. split; [congruence | done].
Qed.

Lemma cstring_prefix (a : list byte) : cstring a `prefix_of` a.
Proof.
  induction a as [|b a IH]; simpl; [done|].
  case_decide; [apply prefix_nil | by apply prefix_cons].
Qed.

(** X12. All that [run_command] does, for the NULL pointer or a pointer
    to at least one byte, is one of three things.  It does nothing at all,
    exactly when the pointer is NULL or the array starts with NUL.
    Otherwise, when fork fails, it gives one warning and nothing else; and
    when fork succeeds, it spawns one shell and nothing else, on a command
    that is not empty, holds no NUL byte and is the start of the array. *)
Theorem run_command_spawns_text W a :
  a ≠ Some [] →
  (run_command W a = [] ∧
   (a = None ∨ ∃ arr, a = Some arr ∧ head arr = Some NUL)) ∨
  (∃ arr, a = Some arr ∧ head arr ≠ Some NUL ∧ fork W = false ∧
     run_command W a = [Warn "fork"]) ∨
  (∃ arr cmd, a = Some arr ∧ head arr ≠ Some NUL ∧ fork W = true ∧
     run_command W a = [Spawn cmd] ∧
     cmd ≠ [] ∧ (NUL ∉ cmd) ∧ (cmd `prefix_of` arr)).
Proof.
  intros Hptr. unfold run_command. destruct a as [arr|]; [|left; eauto].
  case_decide as Hhead; [left; eauto|]. right.
  destruct (fork W); simpl.
  - right. exists arr, (cstring arr). repeat split; try done.
    + intros Hempty. apply Hhead, head_cstring; [congruence | done].
    + apply cstring_nul_free.
    + apply cstring_prefix.
  - left. exists arr. by repeat split.
Qed.

Lemma run_command_spawns_text_witness :
  let a := Some [Init.Byte.x6c; Init.Byte.x73; NUL; Init.Byte.x61] in
  a ≠ Some [] ∧
  ((run_command world8 a = [] ∧
    (a = None ∨ ∃ arr, a = Some arr ∧ head arr = Some NUL)) ∨
   (∃ arr, a = Some arr ∧ head arr ≠ Some NUL ∧ fork world8 = false ∧
      run_command world8 a = [Warn "fork"]) ∨
   (∃ arr cmd, a = Some arr ∧ head arr ≠ Some NUL ∧ fork world8 = true ∧
      run_command world8 a = [Spawn cmd] ∧
      cmd ≠ [] ∧ (NUL ∉ cmd) ∧ (cmd `prefix_of` arr))).
Proof.
  intros a.
  assert (H : a ≠ Some []) by discriminate.
  split; [done|].
  apply (run_command_spawns_text world8 a H).
Defined.

(** ** Whole runs of main *)

Lemma startup_goes_on W :
  startup_fatal W = false → ∃ ses, (startup W).1 = inr ses.
Proof.
  unfold startup_fatal, startup.
  destruct (XOpenDisplay W); simpl; [|done].
  destruct (OpenBSD W), (pledge W); simpl; try done;
    destruct (parse_color W bg_color) as [bg out1],
      (parse_color W fg_color) as [border out2];
    destruct (XftFontOpenName W font_name) as [font|]; simpl; try done;
    destruct (XftColorAllocName W fg_color); simpl; try done;
    destruct (XftDrawCreate W); simpl; try done; eauto.
Qed.

(** X1. The loop ends exactly on Escape, Return, keypad Enter and the
    window manager's close request: after any sequence of events,
    [running] is 0 if one of them was such an event (or if it was 0
    before), and has its old value otherwise. *)
Theorem session_ends_exactly_on W font xftdraw evs s :
  running (main_loop W font xftdraw evs s).1 =
  if existsb (ends_session W) evs then 0 else running s.
Proof. apply main_loop_running. Qed.

(** X7. A run of the launcher starts at most one command and writes to
    standard output at most once (one call of printf), whatever the events
    and whatever the collaborators answer. *)
Theorem one_command_per_run W evs :
  (length (List.filter is_spawn (main W evs).2) ≤ 1)%nat ∧
  (length (List.filter is_stdout (main W evs).2) ≤ 1)%nat.
Proof.
  unfold main.
  pose proof (startup_quiet W) as Hq.
  destruct (startup W) as [[o|ses] out0]; simpl in *.
  { rewrite !quiet_filter
      by auto using spawn_prints_or_executes, stdout_prints_or_executes.
    simpl. lia. }
  pose proof (main_loop_outputs W (the_font ses) true evs (initial_state W))
    as Hloop.
  destruct (main_loop _ _ _ evs _) as [s out]. simpl in Hloop.
  destruct (running s =? 0); simpl;
    rewrite !List.filter_app, !length_app;
    rewrite !(quiet_filter _ out0)
      by auto using spawn_prints_or_executes, stdout_prints_or_executes;
    simpl; lia.
Qed.

(** X8. Once start-up has succeeded, the run ends with exit status 0 and
    with the release of the display resources as its last act exactly
    when an event ends the session, and the events after that one are
    never looked at; with no such event the program waits for the next
    event, still running. *)
Theorem main_exit_status W evs :
  startup_fatal W = false →
  if existsb (ends_session W) evs then
    (main W evs).1 = Exit 0 ∧ last (main W evs).2 = Some Cleanup ∧
    ∀ evs', main W (evs ++ evs') = main W evs
  else ∃ s, (main W evs).1 = Waiting s ∧ running s = 1.
Proof.
  intros Hok. destruct (startup_goes_on W Hok) as [ses Hses].
  unfold main. destruct (startup W) as [o out0]. simpl in Hses. subst o.
  pose proof (main_loop_running W (the_font ses) true evs (initial_state W))
    as Hrun.
  destruct (existsb (ends_session W) evs).
  - assert (Hloop : ∀ evs',
      main_loop W (the_font ses) true (evs ++ evs') (initial_state W) =
      main_loop W (the_font ses) true evs (initial_state W)).
    { intros evs'. rewrite main_loop_app, main_loop_stopped by done. simpl.
      rewrite app_nil_r. by destruct (main_loop _ _ _ evs _). }
    split; [|split].
    + destruct (main_loop _ _ _ evs _) as [s out]. simpl in Hrun.
      by rewrite Hrun.
    + destruct (main_loop _ _ _ evs _) as [s out]. simpl in Hrun.
      rewrite Hrun. simpl. by rewrite !app_assoc, last_snoc.
    + intros evs'. by rewrite Hloop.
  - destruct (main_loop _ _ _ evs _) as [s out]. simpl in Hrun.
    rewrite Hrun. simpl. eauto.
Qed.

Lemma main_exit_status_witness :
  startup_fatal world8 = false ∧
  (main world8 [key_a; key_escape; key_a; key_enter]).1 = Exit 0 ∧
  main world8 ([key_a; key_escape] ++ [key_a; key_enter]) =
  main world8 [key_a; key_escape].
Proof.
  assert (H : startup_fatal world8 = false) by reflexivity.
  split; [done|].
  pose proof (main_exit_status world8 [key_a; key_escape] H) as (_ & _ & Hrest).
  split; [|apply Hrest].
  apply (main_exit_status world8 [key_a; key_escape; key_a; key_enter] H).
Defined.

(** X13. When start-up fails, no event is looked at: the run is the same
    for every event sequence, it ends with exit status 1, and it prints
    nothing on standard output and starts no command. *)
Theorem failed_startup_ignores_events W evs :
  startup_fatal W = true →
  main W evs = (Exit 1, (startup W).2) ∧ Forall quiet (main W evs).2.
Proof.
  intros Hfatal. pose proof (startup_fatal_exit W Hfatal) as Hexit.
  pose proof (startup_quiet W) as Hq.
  unfold main. destruct (startup W) as [o out0]. simpl in *. by subst o.
Qed.

Lemma failed_startup_ignores_events_witness :
  startup_fatal world_no_xft_color = true ∧
  main world_no_xft_color [key_a; key_enter] =
    (Exit 1, (startup world_no_xft_color).2).
Proof.
  assert (H : startup_fatal world_no_xft_color = true) by reflexivity.
  split; [done|].
  apply (failed_startup_ignores_events world_no_xft_color _ H).
Defined.

(** ** From the keys typed to the command started *)

Section Typing.
Variable W : World.
Variable font : XftFont.
Variable xftdraw : bool.

(** X2. Typing.  A sequence of key presses that reach the insertion path,
    in a running session whose buffer has room for all their bytes, puts
    these bytes at the cursor in the order typed: the text becomes the
    text before the cursor, then the typed bytes, then the text after the
    cursor; cursor and length grow by the number of bytes typed; the
    session keeps running. *)
Theorem typing_inserts_in_order evs texts s :
  buffer_inv s → running s ≠ 0 →
  Forall2 (λ ev text, typed ev = Some text) evs texts →
  inlen s + Z.of_nat (length (concat texts)) < input_max - 1 →
  content (main_loop W font xftdraw evs s).1 =
    take (Z.to_nat (cursor s)) (content s) ++ concat texts ++
    drop (Z.to_nat (cursor s)) (content s) ∧
  cursor (main_loop W font xftdraw evs s).1 =
    cursor s + Z.of_nat (length (concat texts)) ∧
  inlen (main_loop W font xftdraw evs s).1 =
    inlen s + Z.of_nat (length (concat texts)) ∧
  running (main_loop W font xftdraw evs s).1 = running s.
Proof. apply typing_run. Qed.

(** X3. BackSpace, repeated.  In a running session with a well-formed
    buffer, [k] presses of BackSpace remove the [k] bytes before the
    cursor and nothing else; when fewer than [k] bytes precede the cursor
    they remove those and the remaining presses do nothing. *)
Theorem backspaces_delete_before_cursor k modifiers chars s :
  buffer_inv s → running s ≠ 0 →
  content (main_loop W font xftdraw
             (replicate k (KeyPress XK_BackSpace modifiers chars)) s).1 =
    take (Z.to_nat (cursor s) - k) (content s) ++
    drop (Z.to_nat (cursor s)) (content s) ∧
  cursor (main_loop W font xftdraw
            (replicate k (KeyPress XK_BackSpace modifiers chars)) s).1 =
    Z.max 0 (cursor s - Z.of_nat k) ∧
  inlen (main_loop W font xftdraw
           (replicate k (KeyPress XK_BackSpace modifiers chars)) s).1 =
    inlen s - Z.min (Z.of_nat k) (cursor s).
Proof.
  intros Hinv Hrun.
  destruct (backspaces_run W font xftdraw k modifiers chars s Hinv Hrun)
    as (? & ? & ? & _).
  done.
Qed.

(** X14. In a running session with a well-formed buffer that has room
    for the bytes typed (so that no key press is refused), typing and then
    pressing BackSpace as many times as bytes were typed gives back the
    text, the length and the cursor position the session had before,
    wherever the cursor was. *)
Theorem backspaces_undo_typing evs texts modifiers chars s :
  buffer_inv s → running s ≠ 0 →
  Forall2 (λ ev text, typed ev = Some text) evs texts →
  inlen s + Z.of_nat (length (concat texts)) < input_max - 1 →
  let undo :=
    replicate (length (concat texts)) (KeyPress XK_BackSpace modifiers chars) in
  content (main_loop W font xftdraw (evs ++ undo) s).1 = content s ∧
  cursor (main_loop W font xftdraw (evs ++ undo) s).1 = cursor s ∧
  inlen (main_loop W font xftdraw (evs ++ undo) s).1 = inlen s.
Proof.
  intros Hinv Hrun Htyped Hfit undo. subst undo.
  rewrite main_loop_app. simpl.
  destruct (typing_run W font xftdraw evs texts s Hinv Hrun Htyped Hfit)
    as (Hct & Hcur & Hlen & Hrun1).
  pose proof (main_loop_inv W font xftdraw evs s Hinv) as Hinv1.
  pose proof (content_length s Hinv) as Hsize.
  destruct (backspaces_run W font xftdraw (length (concat texts)) modifiers
              chars _ Hinv1) as (Hct' & Hcur' & Hlen' & _); [congruence|].
  destruct Hinv as (_ & Hc0 & Hc & _).
  rewrite Hct', Hcur', Hlen', Hct, Hcur, Hlen.
  replace (Z.to_nat (cursor s + Z.of_nat (length (concat texts)))
           - length (concat texts))%nat
    with (Z.to_nat (cursor s)) by lia.
  replace (Z.to_nat (cursor s + Z.of_nat (length (concat texts))))
    with (Z.to_nat (cursor s) + length (concat texts))%nat by lia.
  rewrite drop_inserted by lia.
  rewrite take_app_le by (rewrite length_take; lia).
  rewrite take_take, Nat.min_id, take_drop.
  repeat split; lia.
Qed.

Lemma key_Return_text s text :
  buffer_inv s → content s = text → text ≠ [] → NUL ∉ text →
  key_Return W s =
  (State (input s) (cursor s) (inlen s) (scroll_x s) 0 (focused s),
   [Stdout (text ++ [LF]); Fflush] ++
   (if fork W then [Spawn text] else [Warn "fork"])).
Proof.
  intros Hinv Hct Hne Hnonul.
  pose proof (run_command_buffer W s Hinv) as Hrun.
  pose proof (content_length s Hinv) as Hsize.
  destruct Hinv as (Ha & Hc0 & Hc & Hn & Hnul).
  unfold key_Return.
  destruct (Z.ltb_spec 0 (inlen s)) as [Hpos|Hzero].
  - rewrite list_insert_id by done. rewrite Hrun.
    rewrite (cstring_take _ _ Hnul). fold (content s).
    rewrite Hct, cstring_no_nul by done.
    by destruct (decide (text = [])).
  - rewrite Hct in Hsize. destruct text; [done|]. simpl in Hsize. lia.
Qed.

Lemma entered_goes_on ev text :
  entered W ev = Some text → ends_session W ev = false.
Proof.
  destruct ev as [| |data0|key modifiers chars|]; try done.
  - simpl. by destruct (data0 =? WM_DELETE_WINDOW W).
  - apply typed_goes_on.
Qed.

Lemma step_entered ev text s :
  entered W ev = Some text →
  buffer_inv s →
  inlen s + Z.of_nat (length text) < input_max - 1 →
  content (step W font xftdraw ev s).1 =
    take (Z.to_nat (cursor s)) (content s) ++ text ++
    drop (Z.to_nat (cursor s)) (content s) ∧
  cursor (step W font xftdraw ev s).1 = cursor s + Z.of_nat (length text) ∧
  inlen (step W font xftdraw ev s).1 = inlen s + Z.of_nat (length text).
Proof.
  intros Hev Hinv Hfit.
  destruct ev as [| |data0|key modifiers chars|]; simpl in Hev.
  - injection Hev as <-. simpl.
    destruct (focused s =? 0); simpl;
      match goal with
      | |- context [redraw ?W ?f ?x ?a ?c ?n ?sx ?r ?fo] =>
          pose proof (redraw_fst W f x a c n sx r fo) as Hdraw;
          destruct (redraw W f x a c n sx r fo) as [s' out]
      end; simpl in *; subst s'; unfold content; simpl;
      rewrite take_drop; repeat split; lia.
  - injection Hev as <-. simpl. rewrite take_drop. repeat split; lia.
  - simpl. destruct (data0 =? WM_DELETE_WINDOW W); [done|].
    injection Hev as <-. simpl. rewrite take_drop. repeat split; lia.
  - rewrite (step_typed W font xftdraw (KeyPress key modifiers chars) text s Hev).
    by apply insert_text_content.
  - injection Hev as <-. simpl. rewrite take_drop. repeat split; lia.
Qed.

(** Entered bytes go in at the cursor, in the order entered. *)
Lemma entering_run evs texts s :
  buffer_inv s → running s ≠ 0 →
  Forall2 (λ ev text, entered W ev = Some text) evs texts →
  inlen s + Z.of_nat (length (concat texts)) < input_max - 1 →
  content (main_loop W font xftdraw evs s).1 =
    take (Z.to_nat (cursor s)) (content s) ++ concat texts ++
    drop (Z.to_nat (cursor s)) (content s) ∧
  cursor (main_loop W font xftdraw evs s).1 =
    cursor s + Z.of_nat (length (concat texts)) ∧
  inlen (main_loop W font xftdraw evs s).1 =
    inlen s + Z.of_nat (length (concat texts)) ∧
  running (main_loop W font xftdraw evs s).1 = running s.
Proof.
  intros Hinv Hrun Hentered. revert s Hinv Hrun.
  induction Hentered as [|ev text evs texts Hev Hevs IH]; intros s Hinv Hrun Hfit.
  - simpl. destruct (running s =? 0); simpl; rewrite take_drop;
      repeat split; lia.
  - rewrite main_loop_cons by done.
    pose proof (step_running W font xftdraw ev s) as Hrun1.
    rewrite (entered_goes_on ev text Hev) in Hrun1.
    pose proof (step_inv W font xftdraw ev s Hinv) as Hinv1.
    simpl in Hfit. rewrite length_app in Hfit.
    destruct (step_entered ev text s Hev Hinv) as (Hct & Hcur & Hlen); [lia|].
    destruct (IH _ Hinv1) as (Hct' & Hcur' & Hlen' & Hrun'); [lia | lia |].
    pose proof (content_length s Hinv) as Hsize.
    destruct Hinv as (_ & Hc0 & Hc & _).
    rewrite Hct', Hcur', Hlen', Hrun', Hct, Hcur, Hlen, Hrun1.
    simpl. rewrite length_app.
    replace (Z.to_nat (cursor s + Z.of_nat (length text)))
      with (Z.to_nat (cursor s) + length text)%nat by lia.
    rewrite take_inserted, drop_inserted by lia.
    rewrite <- !app_assoc. repeat split; lia.
Qed.

Lemma entered_then_enter evs texts ev rest :
  Forall2 (λ ev text, entered W ev = Some text) evs texts →
  is_enter ev = true →
  concat texts ≠ [] →
  Z.of_nat (length (concat texts)) < input_max - 1 →
  NUL ∉ concat texts →
  running (main_loop W font xftdraw (evs ++ ev :: rest) (initial_state W)).1 = 0 ∧
  ∃ painted,
    Forall quiet painted ∧
    (main_loop W font xftdraw (evs ++ ev :: rest) (initial_state W)).2 =
      painted ++ [Stdout (concat texts ++ [LF]); Fflush] ++
      (if fork W then [Spawn (concat texts)] else [Warn "fork"]).
Proof.
  intros Hentered Henter Hne Hfit Hnonul.
  pose proof (initial_state_inv W) as Hinv.
  assert (Hrun : running (initial_state W) ≠ 0) by done.
  destruct (entering_run evs texts _ Hinv Hrun Hentered)
    as (Hct & Hcur & Hlen & Hrun1); [simpl; lia|].
  pose proof (main_loop_inv W font xftdraw evs _ Hinv) as Hinv1.
  assert (Hquiet : Forall quiet (main_loop W font xftdraw evs (initial_state W)).2)
    by (apply main_loop_quiet; by rewrite Hrun1).
  change (content (initial_state W)) with (@nil byte) in Hct.
  rewrite take_nil, drop_nil, app_nil_r in Hct. simpl in Hct.
  rewrite main_loop_app.
  set (s1 := (main_loop W font xftdraw evs (initial_state W)).1) in *.
  assert (Hturn : main_loop W font xftdraw (ev :: rest) s1 =
                  (State (input s1) (cursor s1) (inlen s1) (scroll_x s1) 0
                     (focused s1),
                   [Stdout (concat texts ++ [LF]); Fflush] ++
                   (if fork W then [Spawn (concat texts)] else [Warn "fork"]))).
  { simpl. rewrite Hrun1. simpl.
    rewrite step_enter, (key_Return_text s1 (concat texts)) by done.
    rewrite main_loop_stopped by done. by rewrite app_nil_r. }
  rewrite Hturn. simpl. split; [done|]. eauto.
Qed.
End Typing.

(** X15. From the keys to the command.  After a successful start-up, let
    the events before a Return or keypad Enter be inserting key presses,
    with Expose, FocusOut, events of other types and client messages
    other than the close request anywhere among them, and let the bytes
    of the key presses, in order, be a non-empty text without NUL byte
    that fits the buffer.  Then the run ends with exit status 0; its one
    write to standard output is that text followed by a newline; and it
    starts the shell on exactly that text if fork succeeds, and nothing
    if fork fails.  Events after the Return play no part. *)
Theorem typed_text_is_executed W evs texts ev rest :
  startup_fatal W = false →
  Forall2 (λ ev text, entered W ev = Some text) evs texts →
  is_enter ev = true →
  concat texts ≠ [] →
  Z.of_nat (length (concat texts)) < input_max - 1 →
  NUL ∉ concat texts →
  (main W (evs ++ ev :: rest)).1 = Exit 0 ∧
  List.filter prints_or_executes (main W (evs ++ ev :: rest)).2 =
    Stdout (concat texts ++ [LF]) ::
    (if fork W then [Spawn (concat texts)] else []).
Proof.
  intros Hok Hentered Henter Hne Hfit Hnonul.
  destruct (startup_goes_on W Hok) as [ses Hses].
  pose proof (startup_quiet W) as Hq0.
  unfold main. destruct (startup W) as [o out0]. simpl in Hses, Hq0. subst o.
  destruct (entered_then_enter W (the_font ses) true evs texts ev rest
              Hentered Henter Hne Hfit Hnonul) as (Hrun & painted & Hq & Hout).
  destruct (main_loop _ _ _ _ _) as [s out]. simpl in Hrun, Hout.
  rewrite Hrun. simpl. split; [done|]. subst out.
  rewrite !List.filter_app.
  rewrite (quiet_filter _ out0), (quiet_filter _ painted) by done.
  by destruct (fork W).
Qed.

Lemma typing_inserts_in_order_witness :
  buffer_inv hello ∧ running hello ≠ 0 ∧
  Forall2 (λ ev text, typed ev = Some text) [key_a; key_a]
    [[Init.Byte.x61]; [Init.Byte.x61]] ∧
  inlen hello + 2 < input_max - 1 ∧
  content (main_loop world8 font8 true [key_a; key_a] hello).1 =
    take 2 (content hello) ++ [Init.Byte.x61; Init.Byte.x61] ++
    drop 2 (content hello).
Proof.
  assert (H1 : buffer_inv hello) by (by vm_compute).
  assert (H2 : running hello ≠ 0) by (by vm_compute).
  assert (H3 : Forall2 (λ ev text, typed ev = Some text) [key_a; key_a]
                 [[Init.Byte.x61]; [Init.Byte.x61]])
    by (by repeat constructor).
  assert (H4 : inlen hello + 2 < input_max - 1) by (by vm_compute).
  split; [done|]. split; [done|]. split; [done|]. split; [done|].
  apply (typing_inserts_in_order world8 font8 true _ _ hello H1 H2 H3 H4).
Defined.

Lemma backspaces_delete_before_cursor_witness :
  buffer_inv hello ∧ running hello ≠ 0 ∧
  content (main_loop world8 font8 true (replicate 3 key_backspace) hello).1 =
    drop 2 (content hello) ∧
  cursor (main_loop world8 font8 true (replicate 3 key_backspace) hello).1 = 0.
Proof.
  assert (H1 : buffer_inv hello) by (by vm_compute).
  assert (H2 : running hello ≠ 0) by (by vm_compute).
  split; [done|]. split; [done|].
  destruct (backspaces_delete_before_cursor world8 font8 true 3 0
              [Init.Byte.x08] hello H1 H2) as (Hct & Hcur & _).
  split; [apply Hct | apply Hcur].
Defined.

Lemma backspaces_undo_typing_witness :
  buffer_inv hello ∧ running hello ≠ 0 ∧
  Forall2 (λ ev text, typed ev = Some text) [key_a; key_a]
    [[Init.Byte.x61]; [Init.Byte.x61]] ∧
  inlen hello + 2 < input_max - 1 ∧
  content (main_loop world8 font8 true
             ([key_a; key_a] ++ replicate 2 key_backspace) hello).1 =
    content hello.
Proof.
  assert (H1 : buffer_inv hello) by (by vm_compute).
  assert (H2 : running hello ≠ 0) by (by vm_compute).
  assert (H3 : Forall2 (λ ev text, typed ev = Some text) [key_a; key_a]
                 [[Init.Byte.x61]; [Init.Byte.x61]])
    by (by repeat constructor).
  assert (H4 : inlen hello + 2 < input_max - 1) by (by vm_compute).
  split; [done|]. split; [done|]. split; [done|]. split; [done|].
  apply (backspaces_undo_typing world8 font8 true _ _ 0 [Init.Byte.x08]
           hello H1 H2 H3 H4).
Defined.

Lemma typed_text_is_executed_witness :
  let evs :=
    [Expose; KeyPress 0x6c 0 [Init.Byte.x6c]; FocusOut;
     KeyPress 0x73 0 [Init.Byte.x73]; Expose] in
  let texts := [[]; [Init.Byte.x6c]; []; [Init.Byte.x73]; []] in
  startup_fatal world8 = false ∧
  Forall2 (λ ev text, entered world8 ev = Some text) evs texts ∧
  is_enter key_enter = true ∧
  (main world8 (evs ++ key_enter :: [key_a])).1 = Exit 0 ∧
  List.filter prints_or_executes (main world8 (evs ++ key_enter :: [key_a])).2 =
    [Stdout [Init.Byte.x6c; Init.Byte.x73; LF];
     Spawn [Init.Byte.x6c; Init.Byte.x73]].
Proof.
  intros evs texts.
  assert (H1 : startup_fatal world8 = false) by reflexivity.
  assert (H2 : Forall2 (λ ev text, entered world8 ev = Some text) evs texts)
    by (by repeat constructor).
  assert (H3 : is_enter key_enter = true) by reflexivity.
  assert (H4 : concat texts ≠ []) by discriminate.
  assert (H5 : Z.of_nat (length (concat texts)) < input_max - 1)
    by (by vm_compute).
  assert (H6 : NUL ∉ concat texts).
  { simpl. intros Hin. repeat (apply elem_of_cons in Hin as [Hin|Hin]; [done|]).
    by apply elem_of_nil in Hin. }
  split; [done|]. split; [done|]. split; [done|].
  apply (typed_text_is_executed world8 evs texts key_enter [key_a]
           H1 H2 H3 H4 H5 H6).
Defined.

(** ** Input focus *)

Section Focus.
Variable W : World.
Variable font : XftFont.
Variable xftdraw : bool.

Lemma redraw_focus a c n sx r f :
  List.filter is_focus (redraw W font xftdraw a c n sx r f).2 = [] ∧
  focused (redraw W font xftdraw a c n sx r f).1 = f.
Proof.
  unfold redraw, draw. destruct xftdraw; simpl; [|done].
  by destruct (0 <? n).
Qed.

Lemma key_press_focus key modifiers chars s :
  List.filter is_focus (key_press W font xftdraw key modifiers chars s).2 = [] ∧
  focused (key_press W font xftdraw key modifiers chars s).1 = focused s.
Proof.
  unfold key_press, XLookupString.
  repeat match goal with
         | |- context [if ?b then _ else _] =>
             lazymatch b with
             | context [if _ then _ else _] => fail
             | _ => destruct b
             end
         end;
    unfold key_Escape, key_Return, key_BackSpace, key_Left, key_Right,
      key_Home, key_End, key_ctrl_u, insert_text, run_command;
    repeat match goal with
           | |- context [if ?b then _ else _] => destruct b
           | |- context [decide ?P] => destruct (decide P)
           end;
    simpl; try done; apply redraw_focus.
Qed.

Lemma step_focus ev s :
  List.filter is_focus (step W font xftdraw ev s).2 =
    (match ev with
     | Expose => if focused s =? 0 then [XSetInputFocus] else []
     | _ => []
     end) ∧
  focused (step W font xftdraw ev s).1 =
    (match ev with
     | Expose => if focused s =? 0 then 1 else focused s
     | _ => focused s
     end).
Proof.
  destruct ev as [| |data0|key modifiers chars|]; simpl; try done.
  - destruct (focused s =? 0); simpl;
      match goal with
      | |- context [redraw ?W ?f ?x ?a ?c ?n ?sx ?r ?fo] =>
          pose proof (redraw_focus a c n sx r fo) as [Hout Hfo];
          destruct (redraw W f x a c n sx r fo)
      end; simpl in *; by rewrite Hout, Hfo.
  - by destruct (data0 =? WM_DELETE_WINDOW W).
  - apply key_press_focus.
Qed.

Lemma main_loop_focused evs s :
  focused s ≠ 0 →
  List.filter is_focus (main_loop W font xftdraw evs s).2 = [].
Proof.
  revert s. induction evs as [|ev evs IH]; intros s Hfocused; simpl.
  { by destruct (running s =? 0). }
  destruct (running s =? 0); [done|].
  pose proof (step_focus ev s) as [Hout Hfo].
  destruct (step _ _ _ ev s) as [s1 out1]. simpl in Hout, Hfo.
  assert (Hfocused1 : focused s1 ≠ 0).
  { rewrite Hfo. destruct ev; try done.
    by destruct (Z.eqb_spec (focused s) 0). }
  assert (Hout1 : List.filter is_focus out1 = []).
  { rewrite Hout. destruct ev; try done.
    by destruct (Z.eqb_spec (focused s) 0). }
  specialize (IH s1 Hfocused1).
  destruct (main_loop _ _ _ evs s1) as [s2 out2]. simpl in *.
  by rewrite List.filter_app, Hout1, IH.
Qed.

(** X16. The launcher asks for the input focus at most once in a session,
    and not at all in a session that already has it: only an Expose event
    met with [focused = 0] asks, and from then on [focused] is set. *)
Theorem focus_requested_once evs s :
  (length (List.filter is_focus (main_loop W font xftdraw evs s).2) ≤ 1)%nat ∧
  (focused s ≠ 0 →
   List.filter is_focus (main_loop W font xftdraw evs s).2 = []).
Proof.
  split; [|apply main_loop_focused].
  revert s. induction evs as [|ev evs IH]; intros s; simpl.
  { destruct (running s =? 0); simpl; lia. }
  destruct (running s =? 0); [simpl; lia|].
  pose proof (step_focus ev s) as [Hout Hfo].
  destruct (step _ _ _ ev s) as [s1 out1] eqn:Hstep. simpl in Hout, Hfo.
  destruct (decide (focused s1 = 0)) as [Hzero|Hset].
  - assert (Hout1 : List.filter is_focus out1 = []).
    { rewrite Hout. destruct ev; try done.
      rewrite Hfo in Hzero. by destruct (Z.eqb_spec (focused s) 0). }
    specialize (IH s1).
    destruct (main_loop _ _ _ evs s1) as [s2 out2]. simpl in *.
    by rewrite List.filter_app, Hout1.
  - pose proof (main_loop_focused evs s1 Hset) as Hrest.
    destruct (main_loop _ _ _ evs s1) as [s2 out2]. simpl in *.
    rewrite List.filter_app, Hrest, app_nil_r, Hout.
    destruct ev; simpl; try lia. destruct (focused s =? 0); simpl; lia.
Qed.
End Focus.

Lemma focus_requested_once_witness :
  focused hello ≠ 0 ∧
  List.filter is_focus
    (main_loop world8 font8 true [Expose; key_a; Expose] hello).2 = [].
Proof.
  assert (H : focused hello ≠ 0) by (by vm_compute).
  split; [done|].
  by apply (focus_requested_once world8 font8 true [Expose; key_a; Expose] hello).
Defined.

(** ** The cell the text never reaches *)

Section After.
Context {A : Type}.
Implicit Types a k : list A.
Local Open Scope nat_scope.

Lemma lookup_opened_after a k c n j :
  c ≤ n → n + length k < length a → n + length k + 1 ≤ j →
  (take c a ++ k ++ take (n - c + 1) (drop c a) ++ drop (n + length k + 1) a)
    !! j = a !! j.
Proof.
  intros Hc Hn Hj. rewrite <- open_gap_and_fill by done.
  rewrite !list_lookup_inserts_ge; [done| |lia].
  rewrite length_take, length_drop. lia.
Qed.

Lemma lookup_closed_after a c n j :
  0 < c → c ≤ n → n < length a → n ≤ j →
  (take (c - 1) a ++ take (n - c + 1) (drop c a) ++ drop n a) !! j = a !! j.
Proof.
  intros Hc0 Hc Hn Hj. rewrite <- close_gap by done.
  rewrite list_lookup_inserts_ge; [done|].
  rewrite length_take, length_drop. lia.
Qed.
End After.

Section Room.
Variable W : World.
Variable font : XftFont.
Variable xftdraw : bool.

Lemma redraw_room s a n c sx r f :
  n < input_max - 1 → a !! 255%nat = input s !! 255%nat →
  keeps_room s (redraw W font xftdraw a c n sx r f).1.
Proof. intros Hn Ha. by rewrite redraw_fst. Qed.

Lemma key_Return_room s :
  buffer_inv s → inlen s < input_max - 1 → keeps_room s (key_Return W s).1.
Proof.
  intros (Ha & Hc0 & Hc & Hn & Hnul) Hroom. unfold key_Return, keeps_room.
  destruct (0 <? inlen s); simpl; [|done]. split; [done|].
  apply list_lookup_insert_ne. unfold input_max in *. lia.
Qed.

Lemma key_BackSpace_room s :
  buffer_inv s → inlen s < input_max - 1 →
  keeps_room s (key_BackSpace W font xftdraw s).1.
Proof.
  intros Hinv Hroom. destruct (Z.ltb_spec 0 (cursor s)) as [Hpos|Hle].
  - rewrite key_BackSpace_deletes by done.
    destruct Hinv as (Ha & Hc0 & Hc & Hn & Hnul). unfold input_max in *.
    apply redraw_room; unfold input_max; [lia|].
    apply lookup_closed_after; lia.
  - unfold key_BackSpace.
    by destruct (Z.ltb_spec 0 (cursor s)); [lia|].
Qed.

Lemma insert_text_room bytes s :
  buffer_inv s → inlen s < input_max - 1 →
  keeps_room s (insert_text W font xftdraw bytes (Z.of_nat (length bytes)) s).1.
Proof.
  intros Hinv Hroom.
  destruct (Z.ltb_spec (inlen s + Z.of_nat (length bytes)) (input_max - 1))
    as [Hfit|Hfull]; [|by rewrite insert_text_rejects].
  destruct (decide (bytes = [])) as [->|Hne]; [done|].
  destruct Hinv as (Ha & Hc0 & Hc & Hn & Hnul).
  rewrite insert_text_accepts by done.
  unfold input_max in *.
  apply redraw_room; unfold input_max; [lia|].
  apply lookup_opened_after; lia.
Qed.

Lemma key_press_room key modifiers chars s :
  buffer_inv s → inlen s < input_max - 1 →
  keeps_room s (key_press W font xftdraw key modifiers chars s).1.
Proof.
  intros Hinv Hroom. unfold key_press, XLookupString.
  repeat match goal with
         | |- context [if ?b then _ else _] =>
             lazymatch b with
             | context [if _ then _ else _] => fail
             | _ => destruct b
             end
         end;
    auto using key_Return_room, key_BackSpace_room, insert_text_room;
    unfold key_Escape, key_Left, key_Right, key_Home, key_End, key_ctrl_u;
    repeat match goal with
           | |- context [if ?b then _ else _] => destruct b
           end;
    try done; apply redraw_room; try done.
  - by apply list_lookup_insert_ne.
Qed.

Lemma step_room ev s :
  buffer_inv s → inlen s < input_max - 1 →
  keeps_room s (step W font xftdraw ev s).1.
Proof.
  intros Hinv Hroom.
  destruct ev as [| |data0|key modifiers chars|]; simpl; try done.
  - destruct (focused s =? 0); simpl;
      match goal with
      | |- context [redraw ?W ?f ?x ?a ?c ?n ?sx ?r ?fo] =>
          pose proof (redraw_room s a n c sx r fo Hroom eq_refl);
          by destruct (redraw W f x a c n sx r fo)
      end.
  - by destruct (data0 =? WM_DELETE_WINDOW W).
  - by apply key_press_room.
Qed.

Lemma main_loop_room evs s :
  buffer_inv s → inlen s < input_max - 1 →
  keeps_room s (main_loop W font xftdraw evs s).1.
Proof.
  revert s. induction evs as [|ev evs IH]; intros s Hinv Hroom; simpl.
  { by destruct (running s =? 0). }
  destruct (running s =? 0); [done|].
  pose proof (step_inv W font xftdraw ev s Hinv) as Hinv1.
  pose proof (step_room ev s Hinv Hroom) as [Hroom1 Hlast1].
  destruct (step _ _ _ ev s) as [s1 out1]. simpl in *.
  destruct (IH s1 Hinv1 Hroom1) as [Hroom2 Hlast2].
  destruct (main_loop _ _ _ evs s1) as [s2 out2]. simpl in *.
  split; [done | congruence].
Qed.

(** X17. The text never fills the array.  In every session, after any
    sequence of events, the text is at most [input_max - 2] = 254 bytes
    long, and the last cell of the 256-byte array still holds what the
    memory held before [main] wrote to the array: no turn of the loop
    writes it. *)
Theorem text_never_reaches_last_cell evs :
  inlen (main_loop W font xftdraw evs (initial_state W)).1 ≤ input_max - 2 ∧
  input (main_loop W font xftdraw evs (initial_state W)).1 !! 255%nat =
    resize 256 NUL (stack W) !! 255%nat.
Proof.
  destruct (main_loop_room evs (initial_state W) (initial_state_inv W))
    as [Hroom Hlast]; [done|].
  split; [lia|]. rewrite Hlast. simpl.
  by apply list_lookup_insert_ne.
Qed.
End Room.

(** ** The range of the scroll offset

    The subtraction [ext_cursor.xOff - scroll_x] of [draw] is modelled as
    the mathematical one.  [XGlyphInfo.xOff] is a [short]; with extents in
    that range every offset a session ever holds is in that range too, so
    in a session the difference always fits an [int] and the C subtraction
    is the mathematical one. *)

Section ScrollRange.
Variable W : World.
Variable font : XftFont.
Variable xftdraw : bool.
Hypothesis xOff_short : ∀ text, - 2 ^ 15 ≤ xOff W text < 2 ^ 15.

Lemma adjust_scroll_short c t s :
  - 2 ^ 15 ≤ t < 2 ^ 15 → - 2 ^ 15 ≤ adjust_scroll c t s < 2 ^ 15.
Proof.
  intros Ht. unfold adjust_scroll. rewrite avail_w_value.
  destruct (Z.gtb_spec (c - s) 580); [|destruct (Z.ltb_spec (c - s) 0)];
    split_ifs.
  all: lia.
Qed.

Lemma redraw_scroll_short a c n sx r f :
  - 2 ^ 15 ≤ sx < 2 ^ 15 →
  - 2 ^ 15 ≤ scroll_x (redraw W font xftdraw a c n sx r f).1 < 2 ^ 15.
Proof.
  intros Hsx. rewrite redraw_fst. unfold draw. destruct xftdraw; simpl; [|done].
  apply adjust_scroll_short. unfold text_w.
  destruct (0 <? n); [apply xOff_short | lia].
Qed.

Lemma key_press_scroll_short key modifiers chars s :
  - 2 ^ 15 ≤ scroll_x s < 2 ^ 15 →
  - 2 ^ 15 ≤ scroll_x (key_press W font xftdraw key modifiers chars s).1 < 2 ^ 15.
Proof.
  intros Hsx. unfold key_press, XLookupString.
  repeat match goal with
         | |- context [if ?b then _ else _] =>
             lazymatch b with
             | context [if _ then _ else _] => fail
             | _ => destruct b
             end
         end;
    unfold key_Escape, key_Return, key_BackSpace, key_Left, key_Right,
      key_Home, key_End, key_ctrl_u, insert_text;
    repeat match goal with
           | |- context [if ?b then _ else _] => destruct b
           end;
    try done; apply redraw_scroll_short; (done || lia).
Qed.

Lemma step_scroll_short ev s :
  - 2 ^ 15 ≤ scroll_x s < 2 ^ 15 →
  - 2 ^ 15 ≤ scroll_x (step W font xftdraw ev s).1 < 2 ^ 15.
Proof.
  intros Hsx. destruct ev as [| |data0|key modifiers chars|]; simpl; try done.
  - destruct (focused s =? 0); simpl;
      match goal with
      | |- context [redraw ?W ?f ?x ?a ?c ?n ?sx ?r ?fo] =>
          pose proof (redraw_scroll_short a c n sx r fo Hsx);
          by destruct (redraw W f x a c n sx r fo)
      end.
  - by destruct (data0 =? WM_DELETE_WINDOW W).
  - by apply key_press_scroll_short.
Qed.

(** In a session the offset stays in the range of the extents, so the
    difference of a cursor extent and the offset fits an [int]. *)
Lemma session_scroll_short evs input' cursor' :
  - 2 ^ 15 ≤ scroll_x (main_loop W font xftdraw evs (initial_state W)).1 < 2 ^ 15 ∧
  - 2 ^ 31 ≤ ext_cursor_xOff W input' cursor'
             - scroll_x (main_loop W font xftdraw evs (initial_state W)).1
    < 2 ^ 31.
Proof.
  assert (Hloop : ∀ evs s, - 2 ^ 15 ≤ scroll_x s < 2 ^ 15 →
            - 2 ^ 15 ≤ scroll_x (main_loop W font xftdraw evs s).1 < 2 ^ 15).
  { clear evs. intros evs. induction evs as [|ev evs IH]; intros s Hsx; simpl.
    { by destruct (running s =? 0). }
    destruct (running s =? 0); [done|].
    pose proof (step_scroll_short ev s Hsx) as Hsx1.
    destruct (step _ _ _ ev s) as [s1 out1]. simpl in Hsx1.
    specialize (IH s1 Hsx1).
    by destruct (main_loop _ _ _ evs s1). }
  assert (Hsx : - 2 ^ 15 ≤ scroll_x (main_loop W font xftdraw evs (initial_state W)).1
                < 2 ^ 15) by (apply Hloop; simpl; lia).
  split; [done|].
  assert (Hc : - 2 ^ 15 ≤ ext_cursor_xOff W input' cursor' < 2 ^ 15).
  { unfold ext_cursor_xOff. destruct (0 <? cursor'); [apply xOff_short | lia]. }
  lia.
Qed.
End ScrollRange.
